(** * SimConnectSourceEvents: event subscription, dispatch and per-step output

    A shallow embedding of [SimConnectSourceEvents.cpp] (simconnect-toolbox):
    the block registers a fixed list of client events with the simulator at
    initialization, drains the pending notifications once per step into a
    small accumulator, copies the accumulator to seven scalar output ports
    and resets it.

    The simulator (SimConnect) and the block-diagram engine (BlockFactory)
    are external collaborators.  They are modelled as explicit state: the
    simulator as a queue of pending records, a log of the registration calls
    it has received and a response function that may depend on that log; the
    engine as the [BlockInformation] object handed to every block method. *)

From Stdlib Require Import ZArith List String Bool Lia.
From stdpp Require Import gmap strings list.
Import ListNotations.

Local Open Scope string_scope.
Local Open Scope list_scope.
Local Open Scope Z_scope.

(** ** Windows result codes *)

Definition HRESULT := Z.

Definition S_OK : HRESULT := 0.
Definition E_FAIL : HRESULT := -2147467259.   (* 0x80004005 as a signed 32-bit value *)

Definition FAILED (hr : HRESULT) : bool := hr <? 0.
Definition SUCCEEDED (hr : HRESULT) : bool := 0 <=? hr.

(** ** Records delivered by the simulator

    [SIMCONNECT_RECV] is the header every record starts with; an event
    notification ([SIMCONNECT_RECV_EVENT]) extends it with the client event
    id and one DWORD of payload.  The three fields the block reads are kept
    in one flat record: [uEventID] and [dwData] are only looked at when
    [dwID] says the record is an event. *)

Record SIMCONNECT_RECV := {
  dwID : Z;
  uEventID : Z;
  dwData : Z
}.

(** SDK constants: the fifth member of [SIMCONNECT_RECV_ID], and the
    priority tier passed to [SimConnect_SetNotificationGroupPriority]. *)
Definition SIMCONNECT_RECV_ID_EVENT : Z := 4.
Definition SIMCONNECT_GROUP_PRIORITY_HIGHEST_MASKABLE : Z := 10000000.

(** ** The accumulator ([data])

    Modelled from the spec: the struct behind the member [data] is declared
    in SimConnectSourceEvents.h, which is not part of the sources at hand.
    The spec describes it as a flat record of one numeric field per output
    channel whose idle baseline is 0; the field names are the ones the
    .cpp file uses. *)

Record EventData := {
  apMaster : Z;
  apMasterOff : Z;
  headingSlotIndexSet : Z;
  altitudeSlotIndexSet : Z;
  apPanelVsOn : Z;
  apLocHold : Z;
  apAprHold : Z
}.

Definition baseline : EventData :=
  {| apMaster := 0; apMasterOff := 0; headingSlotIndexSet := 0;
     altitudeSlotIndexSet := 0; apPanelVsOn := 0; apLocHold := 0;
     apAprHold := 0 |}.

Definition set_apMaster (v : Z) (d : EventData) : EventData :=
  {| apMaster := v; apMasterOff := apMasterOff d;
     headingSlotIndexSet := headingSlotIndexSet d;
     altitudeSlotIndexSet := altitudeSlotIndexSet d;
     apPanelVsOn := apPanelVsOn d; apLocHold := apLocHold d;
     apAprHold := apAprHold d |}.

Definition set_apMasterOff (v : Z) (d : EventData) : EventData :=
  {| apMaster := apMaster d; apMasterOff := v;
     headingSlotIndexSet := headingSlotIndexSet d;
     altitudeSlotIndexSet := altitudeSlotIndexSet d;
     apPanelVsOn := apPanelVsOn d; apLocHold := apLocHold d;
     apAprHold := apAprHold d |}.

Definition set_headingSlotIndexSet (v : Z) (d : EventData) : EventData :=
  {| apMaster := apMaster d; apMasterOff := apMasterOff d;
     headingSlotIndexSet := v;
     altitudeSlotIndexSet := altitudeSlotIndexSet d;
     apPanelVsOn := apPanelVsOn d; apLocHold := apLocHold d;
     apAprHold := apAprHold d |}.

Definition set_altitudeSlotIndexSet (v : Z) (d : EventData) : EventData :=
  {| apMaster := apMaster d; apMasterOff := apMasterOff d;
     headingSlotIndexSet := headingSlotIndexSet d;
     altitudeSlotIndexSet := v;
     apPanelVsOn := apPanelVsOn d; apLocHold := apLocHold d;
     apAprHold := apAprHold d |}.

Definition set_apPanelVsOn (v : Z) (d : EventData) : EventData :=
  {| apMaster := apMaster d; apMasterOff := apMasterOff d;
     headingSlotIndexSet := headingSlotIndexSet d;
     altitudeSlotIndexSet := altitudeSlotIndexSet d;
     apPanelVsOn := v; apLocHold := apLocHold d;
     apAprHold := apAprHold d |}.

Definition set_apLocHold (v : Z) (d : EventData) : EventData :=
  {| apMaster := apMaster d; apMasterOff := apMasterOff d;
     headingSlotIndexSet := headingSlotIndexSet d;
     altitudeSlotIndexSet := altitudeSlotIndexSet d;
     apPanelVsOn := apPanelVsOn d; apLocHold := v;
     apAprHold := apAprHold d |}.

Definition set_apAprHold (v : Z) (d : EventData) : EventData :=
  {| apMaster := apMaster d; apMasterOff := apMasterOff d;
     headingSlotIndexSet := headingSlotIndexSet d;
     altitudeSlotIndexSet := altitudeSlotIndexSet d;
     apPanelVsOn := apPanelVsOn d; apLocHold := apLocHold d;
     apAprHold := v |}.

(** ** [SimConnectSourceEvents::dispatchProcedure]

    The two nested switches of the source; [cbData] is not read. *)

Definition dispatchProcedure (pData : SIMCONNECT_RECV) (data : EventData)
  : EventData :=
  if dwID pData =? SIMCONNECT_RECV_ID_EVENT then
    match uEventID pData with
    | 0 => set_apMaster 1 data
    | 1 => set_apMasterOff 1 data
    | 2 => set_headingSlotIndexSet (dwData pData) data
    | 3 => set_altitudeSlotIndexSet (dwData pData) data
    | 4 => set_apPanelVsOn 1 data
    | 5 => set_apLocHold 1 data
    | 6 | 7 => set_apAprHold 1 data
    | _ => data
    end
  else data.

(** ** The simulator connection *)

Definition HANDLE := Z.

(** The registration calls the block issues. *)
Inductive Call :=
| Open (szName : string)
| MapClientEventToSimEvent (EventID : Z) (EventName : string)
| AddClientEventToNotificationGroup (GroupID EventID : Z) (bMaskable : Z)
| SetNotificationGroupPriority (GroupID uPriority : Z)
| Close.

(** [respond] gives the result of a call from the calls answered so far,
    [calls] is that log (oldest first), [pending] the queue of records not
    yet fetched, [handle] what a successful [Open] hands out. *)
Record SimConnect := {
  respond : list (Call * HRESULT) -> Call -> HRESULT;
  calls : list (Call * HRESULT);
  pending : list SIMCONNECT_RECV;
  handle : HANDLE
}.

Definition set_calls (l : list (Call * HRESULT)) (sc : SimConnect) : SimConnect :=
  {| respond := respond sc; calls := l; pending := pending sc;
     handle := handle sc |}.

Definition set_pending (q : list SIMCONNECT_RECV) (sc : SimConnect) : SimConnect :=
  {| respond := respond sc; calls := calls sc; pending := q;
     handle := handle sc |}.

(** [SimConnect_GetNextDispatch]: hands out the oldest pending record, or
    fails at once when the queue is empty (it never waits). *)
Definition SimConnect_GetNextDispatch (sc : SimConnect)
  : HRESULT * option SIMCONNECT_RECV * SimConnect :=
  match pending sc with
  | [] => (E_FAIL, None, sc)
  | pData :: rest => (S_OK, Some pData, set_pending rest sc)
  end.

(** ** Block parameters and the engine's [BlockInformation] *)

Inductive ParameterType := INT | STRING.

Record ParameterMetadata := {
  md_type : ParameterType;
  md_index : nat;
  md_rows : nat;
  md_cols : nat;
  md_name : string
}.

Inductive ParameterValue :=
| IntValue (z : Z)
| StringValue (s : string).

(** [getParameter] into an [int] and into a [std::string] member. *)
Definition getParameter_int (p : gmap string ParameterValue) (name : string)
  : option Z :=
  match p !! name with
  | Some (IntValue z) => Some z
  | _ => None
  end.

Definition getParameter_string (p : gmap string ParameterValue) (name : string)
  : option string :=
  match p !! name with
  | Some (StringValue s) => Some s
  | _ => None
  end.

(** What the engine answers to the block: whether the base class
    initializes, whether a parameter description is accepted, the parsed
    parameters (if parsing succeeds), and the buffers of the output ports
    that can be resolved.  A port missing from [outputPortSignals] is one
    for which [getOutputPortSignal] returns a null pointer. *)
Record BlockInformation := {
  Block_initialize : bool;
  addParameterMetadata : ParameterMetadata -> bool;
  parsedParameters : option (gmap string ParameterValue);
  outputPortSignals : gmap nat Z
}.

Definition set_outputPortSignals (s : gmap nat Z) (bi : BlockInformation)
  : BlockInformation :=
  {| Block_initialize := Block_initialize bi;
     addParameterMetadata := addParameterMetadata bi;
     parsedParameters := parsedParameters bi;
     outputPortSignals := s |}.

(** An [OutputSignalPtr] points at the buffer of one port. *)
Definition OutputSignalPtr := nat.

Definition getOutputPortSignal (blockInfo : BlockInformation) (kI : nat)
  : option OutputSignalPtr :=
  match outputPortSignals blockInfo !! kI with
  | Some _ => Some kI
  | None => None
  end.

(** [signal->set(0, value)] on a port of width one. *)
Definition Signal_set (signal : OutputSignalPtr) (value : Z)
  (blockInfo : BlockInformation) : BlockInformation :=
  set_outputPortSignals (<[signal := value]> (outputPortSignals blockInfo))
    blockInfo.

(** ** The block object *)

Record SimConnectSourceEvents := {
  m_parameters : gmap string ParameterValue;
  configurationIndex : Z;
  connectionName : string;
  simConnectHandle : option HANDLE;
  data : EventData
}.

Definition set_m_parameters (p : gmap string ParameterValue)
  (b : SimConnectSourceEvents) : SimConnectSourceEvents :=
  {| m_parameters := p; configurationIndex := configurationIndex b;
     connectionName := connectionName b;
     simConnectHandle := simConnectHandle b; data := data b |}.

Definition set_configurationIndex (z : Z)
  (b : SimConnectSourceEvents) : SimConnectSourceEvents :=
  {| m_parameters := m_parameters b; configurationIndex := z;
     connectionName := connectionName b;
     simConnectHandle := simConnectHandle b; data := data b |}.

Definition set_connectionName (s : string)
  (b : SimConnectSourceEvents) : SimConnectSourceEvents :=
  {| m_parameters := m_parameters b;
     configurationIndex := configurationIndex b; connectionName := s;
     simConnectHandle := simConnectHandle b; data := data b |}.

Definition set_simConnectHandle (h : option HANDLE)
  (b : SimConnectSourceEvents) : SimConnectSourceEvents :=
  {| m_parameters := m_parameters b;
     configurationIndex := configurationIndex b;
     connectionName := connectionName b;
     simConnectHandle := h; data := data b |}.

Definition set_data (d : EventData)
  (b : SimConnectSourceEvents) : SimConnectSourceEvents :=
  {| m_parameters := m_parameters b;
     configurationIndex := configurationIndex b;
     connectionName := connectionName b;
     simConnectHandle := simConnectHandle b; data := d |}.

(** The block together with the simulator it talks to. *)
Record World := {
  self : SimConnectSourceEvents;
  fs : SimConnect
}.

Definition set_self (b : SimConnectSourceEvents) (w : World) : World :=
  {| self := b; fs := fs w |}.

Definition set_fs (sc : SimConnect) (w : World) : World :=
  {| self := self w; fs := sc |}.

(** ** A state monad over [World]

    [initialize] and [addEvent] thread the connection (and the block's own
    members) through a chain of calls, each of which may fail. *)

Definition M (A : Type) : Type := World -> A * World.

Definition ret {A : Type} (a : A) : M A := fun w => (a, w).

Definition bind {A B : Type} (m : M A) (k : A -> M B) : M B :=
  fun w => let (a, w') := m w in k a w'.

Definition modify_self (f : SimConnectSourceEvents -> SimConnectSourceEvents)
  : M unit :=
  fun w => (tt, set_self (f (self w)) w).

Notation "'do' x <- m ; k" := (bind m (fun x => k))
  (at level 10, x name, m at level 100, k at level 200,
   format "'[v' 'do'  x  <-  m ; '/' k ']'").

(** Appending to the simulator's call log. *)
Definition log_append (l : list (Call * HRESULT)) (w : World) : World :=
  set_fs (set_calls (calls (fs w) ++ l) (fs w)) w.

(** One registration call: the simulator answers from its history and the
    call is logged with its result. *)
Definition SimConnect_call (c : Call) : M HRESULT :=
  fun w =>
    let hr := respond (fs w) (calls (fs w)) c in
    (hr, log_append [(c, hr)] w).

Definition SimConnect_Open (szName : string) : M HRESULT :=
  do hr <- SimConnect_call (Open szName);
  if SUCCEEDED hr
  then fun w => (hr, set_self (set_simConnectHandle (Some (handle (fs w))) (self w)) w)
  else ret hr.

Definition SimConnect_MapClientEventToSimEvent (EventID : Z) (EventName : string)
  : M HRESULT :=
  SimConnect_call (MapClientEventToSimEvent EventID EventName).

Definition SimConnect_AddClientEventToNotificationGroup
  (GroupID EventID : Z) (bMaskable : Z) : M HRESULT :=
  SimConnect_call (AddClientEventToNotificationGroup GroupID EventID bMaskable).

Definition SimConnect_SetNotificationGroupPriority (GroupID uPriority : Z)
  : M HRESULT :=
  SimConnect_call (SetNotificationGroupPriority GroupID uPriority).

Definition SimConnect_Close : M HRESULT := SimConnect_call Close.

(** ** [SimConnectSourceEvents::addEvent] *)

Definition addEvent (eventId : Z) (eventName : string) (shouldMask : bool)
  : M bool :=
  do hr <- SimConnect_MapClientEventToSimEvent eventId eventName;
  if FAILED hr then ret false else
  do hr <- SimConnect_AddClientEventToNotificationGroup 0 eventId
             (if shouldMask then 1 else 0);
  if FAILED hr then ret false else
  ret true.

(** ** [SimConnectSourceEvents::parseParameters]

    [Block::numberOfParameters()] of the BlockFactory base class is 0. *)

Definition Block_numberOfParameters : nat := 0.

Definition parseParameters (blockInfo : BlockInformation) : M bool :=
  let index := Block_numberOfParameters in
  let metadata :=
    [ {| md_type := INT; md_index := index; md_rows := 1; md_cols := 1;
         md_name := "ConfigurationIndex" |};
      {| md_type := STRING; md_index := S index; md_rows := 1; md_cols := 1;
         md_name := "ConnectionName" |} ] in
  if forallb (addParameterMetadata blockInfo) metadata then
    match parsedParameters blockInfo with
    | Some p => do _ <- modify_self (set_m_parameters p); ret true
    | None => ret false
    end
  else ret false.

(** ** [SimConnectSourceEvents::initialize]

    The eight [addEvent] calls of the source, each and-ed into
    [boolResult]; all eight are made whatever the earlier ones returned. *)

Definition registerEvents : M bool :=
  do boolResult <- addEvent 0 "AP_MASTER" true;
  do r <- addEvent 1 "AUTOPILOT_OFF" false;
  let boolResult := boolResult && r in
  do r <- addEvent 2 "HEADING_SLOT_INDEX_SET" false;
  let boolResult := boolResult && r in
  do r <- addEvent 3 "ALTITUDE_SLOT_INDEX_SET" false;
  let boolResult := boolResult && r in
  do r <- addEvent 4 "AP_PANEL_VS_ON" false;
  let boolResult := boolResult && r in
  do r <- addEvent 5 "AP_LOC_HOLD" false;
  let boolResult := boolResult && r in
  do r <- addEvent 6 "AP_LOC_HOLD_OFF" false;
  let boolResult := boolResult && r in
  do r <- addEvent 7 "AP_APR_HOLD_ON" false;
  let boolResult := boolResult && r in
  ret boolResult.

Definition initialize (blockInfo : BlockInformation) : M bool :=
  if negb (Block_initialize blockInfo) then ret false else
  do parsed <- parseParameters blockInfo;
  if negb parsed then ret false else
  fun w =>
  match getParameter_int (m_parameters (self w)) "ConfigurationIndex" with
  | None => (false, w)
  | Some ci =>
    let w := set_self (set_configurationIndex ci (self w)) w in
    match getParameter_string (m_parameters (self w)) "ConnectionName" with
    | None => (false, w)
    | Some cn =>
      let w := set_self (set_connectionName cn (self w)) w in
      (do connected <- SimConnect_Open (connectionName (self w));
       if FAILED connected then ret false else
       do boolResult <- registerEvents;
       do result <- SimConnect_SetNotificationGroupPriority 0
                      SIMCONNECT_GROUP_PRIORITY_HIGHEST_MASKABLE;
       if FAILED result || negb boolResult then ret false else
       ret true) w
    end
  end.

(** ** [SimConnectSourceEvents::terminate] *)

Definition terminate : M bool :=
  do _ <- SimConnect_Close;
  do _ <- modify_self (set_simConnectHandle None);
  ret true.

(** ** [SimConnectSourceEvents::processDispatch]

    The [while] loop asks for the next record until the simulator reports
    a failure.  The loop is given as much fuel as there are pending records
    plus one for the failing request that ends it. *)

Fixpoint processDispatch_loop (fuel : nat) (w : World) : World :=
  match fuel with
  | O => w
  | S fuel' =>
    match SimConnect_GetNextDispatch (fs w) with
    | (hr, Some pData, sc) =>
      if SUCCEEDED hr
      then processDispatch_loop fuel'
             {| self := set_data (dispatchProcedure pData (data (self w))) (self w);
                fs := sc |}
      else set_fs sc w
    | (_, None, sc) => set_fs sc w
    end
  end.

Definition processDispatch (w : World) : World :=
  processDispatch_loop (S (length (pending (fs w)))) w.

(** ** [SimConnectSourceEvents::output] *)

(** The first loop: resolve ports [kI], [kI+1], ... ([n] of them), giving
    up at the first one that does not resolve. *)
Fixpoint collectOutputSignals (blockInfo : BlockInformation) (kI n : nat)
  (outputSignals : list OutputSignalPtr) : option (list OutputSignalPtr) :=
  match n with
  | O => Some outputSignals
  | S n' =>
    match getOutputPortSignal blockInfo kI with
    | None => None
    | Some outputSignal =>
      collectOutputSignals blockInfo (S kI) n' (outputSignals ++ [outputSignal])
    end
  end.

Definition output (blockInfo : BlockInformation) (w : World)
  : bool * BlockInformation * World :=
  match collectOutputSignals blockInfo 0 7 [] with
  | None => (false, blockInfo, w)
  | Some outputSignals =>
    (* get data from simconnect *)
    let w := processDispatch w in
    (* write output value to all signals *)
    let d := data (self w) in
    let blockInfo := Signal_set (outputSignals !!! 0%nat) (apMaster d) blockInfo in
    let blockInfo := Signal_set (outputSignals !!! 1%nat) (apMasterOff d) blockInfo in
    let blockInfo := Signal_set (outputSignals !!! 2%nat) (headingSlotIndexSet d) blockInfo in
    let blockInfo := Signal_set (outputSignals !!! 3%nat) (altitudeSlotIndexSet d) blockInfo in
    let blockInfo := Signal_set (outputSignals !!! 4%nat) (apPanelVsOn d) blockInfo in
    let blockInfo := Signal_set (outputSignals !!! 5%nat) (apLocHold d) blockInfo in
    let blockInfo := Signal_set (outputSignals !!! 6%nat) (apAprHold d) blockInfo in
    (* reset signals *)
    let b := self w in
    let b := set_data (set_apMaster 0 (data b)) b in
    let b := set_data (set_apMasterOff 0 (data b)) b in
    let b := set_data (set_headingSlotIndexSet 0 (data b)) b in
    let b := set_data (set_altitudeSlotIndexSet 0 (data b)) b in
    let b := set_data (set_apPanelVsOn 0 (data b)) b in
    let b := set_data (set_apLocHold 0 (data b)) b in
    let b := set_data (set_apAprHold 0 (data b)) b in
    (true, blockInfo, set_self b w)
  end.

(** ** The surroundings of a step

    Between two steps the simulator may queue further records. *)

Definition arrive (recs : list SIMCONNECT_RECV) (w : World) : World :=
  set_fs (set_pending (pending (fs w) ++ recs) (fs w)) w.

(** A run of consecutive steps: before each step the records of that
    step's window arrive; the result and the port buffers after each step
    are collected. *)
Fixpoint run (windows : list (list SIMCONNECT_RECV))
  (blockInfo : BlockInformation) (w : World) : list (bool * gmap nat Z) :=
  match windows with
  | [] => []
  | recs :: rest =>
    let '(ok, blockInfo', w') := output blockInfo (arrive recs w) in
    (ok, outputPortSignals blockInfo') :: run rest blockInfo' w'
  end.

(** Worlds the block can be in.  A block starts with its accumulator at
    the baseline (see [EventData]); whatever the other members and the
    simulator are; from there the engine calls the block's methods and the
    simulator queues records, in any order. *)
Inductive reachable : World -> Prop :=
| reach_start b sc :
    data b = baseline -> reachable {| self := b; fs := sc |}
| reach_initialize blockInfo w :
    reachable w -> reachable (snd (initialize blockInfo w))
| reach_arrive recs w :
    reachable w -> reachable (arrive recs w)
| reach_output blockInfo w :
    reachable w -> reachable (snd (output blockInfo w))
| reach_terminate w :
    reachable w -> reachable (snd (terminate w)).

(** All seven output ports resolve. *)
Definition resolvable (blockInfo : BlockInformation) : Prop :=
  Forall (fun kI => is_Some (outputPortSignals blockInfo !! kI)) (seq 0 7).

#[local] Instance resolvable_dec (blockInfo : BlockInformation) :
  Decision (resolvable blockInfo).
Proof. unfold resolvable. apply _. Defined.

(** The accumulator fields in the order [output] copies them to ports 0-6. *)
Definition channels (d : EventData) : list Z :=
  [ apMaster d; apMasterOff d; headingSlotIndexSet d; altitudeSlotIndexSet d;
    apPanelVsOn d; apLocHold d; apAprHold d ].

(** The port buffers after the seven writes. *)
Definition written (d : EventData) (s : gmap nat Z) : gmap nat Z :=
  <[6%nat := apAprHold d]>
  (<[5%nat := apLocHold d]>
  (<[4%nat := apPanelVsOn d]>
  (<[3%nat := altitudeSlotIndexSet d]>
  (<[2%nat := headingSlotIndexSet d]>
  (<[1%nat := apMasterOff d]>
  (<[0%nat := apMaster d]> s)))))).

(** The accumulator after dispatching a sequence of records in order. *)
Definition drain (recs : list SIMCONNECT_RECV) (d : EventData) : EventData :=
  fold_left (fun d pData => dispatchProcedure pData d) recs d.

(** ** The update table as the specification gives it

    Section 4.2 of the specification: local index to effect, with indices
    6 and 7 sharing channel 6. *)

Inductive UpdateRule :=
| Pulse (channel : nat)
| Value (channel : nat).

Definition spec_rule (index : Z) : option UpdateRule :=
  match index with
  | 0 => Some (Pulse 0)
  | 1 => Some (Pulse 1)
  | 2 => Some (Value 2)
  | 3 => Some (Value 3)
  | 4 => Some (Pulse 4)
  | 5 => Some (Pulse 5)
  | 6 => Some (Pulse 6)
  | 7 => Some (Pulse 6)
  | _ => None
  end.

Definition rule_channel (r : UpdateRule) : nat :=
  match r with Pulse c => c | Value c => c end.

(** The channel a record maps to, if it is an event the table knows. *)
Definition record_channel (pData : SIMCONNECT_RECV) : option nat :=
  if dwID pData =? SIMCONNECT_RECV_ID_EVENT
  then rule_channel <$> spec_rule (uEventID pData)
  else None.

Definition maps_to (c : nat) (pData : SIMCONNECT_RECV) : bool :=
  bool_decide (record_channel pData = Some c).

(** The effect of the table on one channel: a pulse rule writes 1, a value
    rule writes the payload, every other channel keeps its value. *)
Definition spec_effect (index payload : Z) (c : nat) (old : Z) : Z :=
  match spec_rule index with
  | Some (Pulse c') => if bool_decide (c = c') then 1 else old
  | Some (Value c') => if bool_decide (c = c') then payload else old
  | None => old
  end.

(** Payload of the last record of the window that maps to channel [c];
    0 when there is none. *)
Definition last_payload (c : nat) (recs : list SIMCONNECT_RECV) : Z :=
  match last (List.filter (maps_to c) recs) with
  | Some pData => dwData pData
  | None => 0
  end.

(** ** Reading the call log *)

Definition succeeded (e : Call * HRESULT) : bool := negb (FAILED (snd e)).

(** The calls logged between two worlds. *)
Definition new_calls (w w' : World) : list (Call * HRESULT) :=
  drop (length (calls (fs w))) (calls (fs w')).

(** Name mappings requested, in order. *)
Definition mapped_events (l : list (Call * HRESULT)) : list (Z * string) :=
  omap (fun e => match fst e with
                 | MapClientEventToSimEvent id name => Some (id, name)
                 | _ => None
                 end) l.

(** Event ids whose name mapping succeeded. *)
Definition mapped_ok (l : list (Call * HRESULT)) : list Z :=
  omap (fun e => match fst e with
                 | MapClientEventToSimEvent id _ =>
                   if FAILED (snd e) then None else Some id
                 | _ => None
                 end) l.

(** Group attachments requested: group, event id, masking flag. *)
Definition attached (l : list (Call * HRESULT)) : list (Z * Z * Z) :=
  omap (fun e => match fst e with
                 | AddClientEventToNotificationGroup g id m => Some (g, id, m)
                 | _ => None
                 end) l.

(** The bindings written out in [initialize]. *)
Definition bindings : list (Z * string * bool) :=
  [ (0, "AP_MASTER", true);
    (1, "AUTOPILOT_OFF", false);
    (2, "HEADING_SLOT_INDEX_SET", false);
    (3, "ALTITUDE_SLOT_INDEX_SET", false);
    (4, "AP_PANEL_VS_ON", false);
    (5, "AP_LOC_HOLD", false);
    (6, "AP_LOC_HOLD_OFF", false);
    (7, "AP_APR_HOLD_ON", false) ].

(** [registerEvents] as a loop over a list of bindings. *)
Fixpoint registerList (bs : list (Z * string * bool)) (boolResult : bool)
  : M bool :=
  match bs with
  | [] => ret boolResult
  | (eventId, eventName, shouldMask) :: bs' =>
    do r <- addEvent eventId eventName shouldMask;
    registerList bs' (boolResult && r)
  end.

(** Channels by kind, as section 3 of the specification lists them. *)
Definition pulse_channels : list nat := [0; 1; 4; 5; 6]%nat.
Definition value_channels : list nat := [2; 3]%nat.

(** The masking flag [initialize] passes for an event id. *)
Definition masked (eventId : Z) : bool := bool_decide (eventId = 0).

(** The shapes the log of one [initialize] can take, with its result:
    nothing was sent (the base class or the parameters failed); only a
    refused [Open]; or an accepted [Open], the registration calls [lr] and
    the priority call. *)
Inductive init_outcome : bool -> list (Call * HRESULT) -> Prop :=
| init_not_connected :
    init_outcome false []
| init_open_refused name hr :
    FAILED hr = true ->
    init_outcome false [(Open name, hr)]
| init_registered name hr lr hp :
    FAILED hr = false ->
    mapped_events lr = map fst bindings ->
    attached lr = map (fun id => (0, id, if masked id then 1 else 0)) (mapped_ok lr) ->
    init_outcome (forallb succeeded lr && negb (FAILED hp))
      ((Open name, hr) :: lr ++
       [(SetNotificationGroupPriority 0 SIMCONNECT_GROUP_PRIORITY_HIGHEST_MASKABLE, hp)]).

(** Two worlds that differ at most in what the step never reads: same
    simulator, same accumulator, same connection name and handle. *)
Definition alike (w1 w2 : World) : Prop :=
  fs w1 = fs w2 /\ data (self w1) = data (self w2) /\
  connectionName (self w1) = connectionName (self w2) /\
  simConnectHandle (self w1) = simConnectHandle (self w2).

(** A computation that treats alike worlds alike. *)
Definition respects {A : Type} (m : M A) : Prop :=
  forall w1 w2 : World,
    alike w1 w2 -> fst (m w1) = fst (m w2) /\ alike (snd (m w1)) (snd (m w2)).

(** ** Concrete worlds used to exercise the statements *)

(** An event record with the given local index and payload. *)
Definition event (index payload : Z) : SIMCONNECT_RECV :=
  {| dwID := SIMCONNECT_RECV_ID_EVENT; uEventID := index; dwData := payload |}.

(** A record of another kind (an exception report, id 1). *)
Definition noise : SIMCONNECT_RECV :=
  {| dwID := 1; uEventID := 0; dwData := 5 |}.

Definition fresh_block : SimConnectSourceEvents :=
  {| m_parameters := ∅; configurationIndex := 0; connectionName := EmptyString;
     simConnectHandle := None; data := baseline |}.

(** A simulator that accepts every call. *)
Definition willing_sim : SimConnect :=
  {| respond := fun _ _ => S_OK; calls := []; pending := []; handle := 1 |}.

(** A simulator that refuses the name mapping of event 3 and accepts
    everything else. *)
Definition picky_sim : SimConnect :=
  {| respond := fun _ c =>
       match c with
       | MapClientEventToSimEvent 3 _ => E_FAIL
       | _ => S_OK
       end;
     calls := []; pending := []; handle := 1 |}.

Definition all_ports : gmap nat Z :=
  list_to_map
    [(0%nat, 9); (1%nat, 9); (2%nat, 9); (3%nat, 9); (4%nat, 9); (5%nat, 9);
     (6%nat, 9)].

Definition engine_with (ci : Z) (ports : gmap nat Z) : BlockInformation :=
  {| Block_initialize := true;
     addParameterMetadata := fun _ => true;
     parsedParameters :=
       Some (<["ConfigurationIndex" := IntValue ci]>
               {["ConnectionName" := StringValue "events"]});
     outputPortSignals := ports |}.

Definition engine : BlockInformation := engine_with 1 all_ports.

(** The same engine with port 3 unresolvable. *)
Definition engine_without_port3 : BlockInformation :=
  engine_with 1 (delete 3%nat all_ports).

Definition fresh_world : World := {| self := fresh_block; fs := willing_sim |}.

Definition picky_world : World := {| self := fresh_block; fs := picky_sim |}.

(** The window of the specification's example: indices 0, 2 (payload 3)
    and 7. *)
Definition example_window : list SIMCONNECT_RECV :=
  [event 0 0; event 2 3; event 7 0].

(** ** [SimConnectSourceEvents::numberOfParameters] *)

Definition numberOfParameters : nat := Block_numberOfParameters + 2.

(** The parameter descriptions [parseParameters] hands to the engine, in
    the order it hands them over. *)
Definition parameterMetadata : list ParameterMetadata :=
  [ {| md_type := INT; md_index := Block_numberOfParameters; md_rows := 1;
       md_cols := 1; md_name := "ConfigurationIndex" |};
    {| md_type := STRING; md_index := S Block_numberOfParameters; md_rows := 1;
       md_cols := 1; md_name := "ConnectionName" |} ].

(** ** [SimConnectSourceEvents::configureSizeAndPorts] *)

Inductive DataType := DOUBLE | SINGLE | INT32 | BOOLEAN.

(** One entry of [InputPortsInfo] / [OutputPortsInfo]: port index,
    dimensions, element type. *)
Record PortInfo := {
  port_index : nat;
  port_dims : list nat;
  port_dataType : DataType
}.

(** What the engine answers while the block is being configured: whether
    the base class configures, and whether a declaration of input and
    output ports is accepted. *)
Record ConfigureInformation := {
  Block_configureSizeAndPorts : bool;
  setPortsInfo : list PortInfo -> list PortInfo -> bool
}.

(** The seven [push_back]s of the source. *)
Definition outputPortInfo : list PortInfo :=
  let outputPortInfo := [] in
  let outputPortInfo := outputPortInfo ++
    [{| port_index := 0; port_dims := [1%nat]; port_dataType := DOUBLE |}] in
  let outputPortInfo := outputPortInfo ++
    [{| port_index := 1; port_dims := [1%nat]; port_dataType := DOUBLE |}] in
  let outputPortInfo := outputPortInfo ++
    [{| port_index := 2; port_dims := [1%nat]; port_dataType := DOUBLE |}] in
  let outputPortInfo := outputPortInfo ++
    [{| port_index := 3; port_dims := [1%nat]; port_dataType := DOUBLE |}] in
  let outputPortInfo := outputPortInfo ++
    [{| port_index := 4; port_dims := [1%nat]; port_dataType := DOUBLE |}] in
  let outputPortInfo := outputPortInfo ++
    [{| port_index := 5; port_dims := [1%nat]; port_dataType := DOUBLE |}] in
  let outputPortInfo := outputPortInfo ++
    [{| port_index := 6; port_dims := [1%nat]; port_dataType := DOUBLE |}] in
  outputPortInfo.

Definition configureSizeAndPorts (configInfo : ConfigureInformation)
  (blockInfo : BlockInformation) : M bool :=
  if negb (Block_configureSizeAndPorts configInfo) then ret false else
  do parsed <- parseParameters blockInfo;
  if negb parsed then ret false else
  let inputPortInfo : list PortInfo := [] in
  if negb (setPortsInfo configInfo inputPortInfo outputPortInfo) then ret false else
  ret true.

(** ** Further readings of the call log *)

(** A call that registers an event: a name mapping or a group attachment. *)
Definition is_registration (e : Call * HRESULT) : bool :=
  match fst e with
  | MapClientEventToSimEvent _ _ => true
  | AddClientEventToNotificationGroup _ _ _ => true
  | _ => false
  end.

(** A simulator that accepts every call, whatever came before. *)
Definition accepts_all (sc : SimConnect) : Prop :=
  forall (history : list (Call * HRESULT)) (c : Call),
    FAILED (respond sc history c) = false.

(** What the first part of [initialize] needs from the engine, and what it
    reads: the parsed parameters, the ConfigurationIndex and the
    ConnectionName. *)
Definition prologue (blockInfo : BlockInformation)
  : option (gmap string ParameterValue * Z * string) :=
  if Block_initialize blockInfo && forallb (addParameterMetadata blockInfo) parameterMetadata
  then
    match parsedParameters blockInfo with
    | Some p =>
      match getParameter_int p "ConfigurationIndex",
            getParameter_string p "ConnectionName" with
      | Some ci, Some cn => Some (p, ci, cn)
      | _, _ => None
      end
    | None => None
    end
  else None.

(** An engine that rejects the second parameter description. *)
Definition fussy_engine : BlockInformation :=
  {| Block_initialize := true;
     addParameterMetadata := fun md => bool_decide (md_index md = 0%nat);
     parsedParameters :=
       Some (<["ConfigurationIndex" := IntValue 1]>
               {["ConnectionName" := StringValue "events"]});
     outputPortSignals := all_ports |}.

(** An engine whose parameters lack the connection name. *)
Definition nameless_engine : BlockInformation :=
  {| Block_initialize := true;
     addParameterMetadata := fun _ => true;
     parsedParameters := Some {["ConfigurationIndex" := IntValue 1]};
     outputPortSignals := all_ports |}.

(** A simulator that refuses to open the connection. *)
Definition closed_sim : SimConnect :=
  {| respond := fun _ c => match c with Open _ => E_FAIL | _ => S_OK end;
     calls := []; pending := [event 0 0]; handle := 1 |}.

Definition closed_world : World := {| self := fresh_block; fs := closed_sim |}.

(** A configuring engine that accepts exactly seven scalar outputs and no
    input. *)
Definition strict_config : ConfigureInformation :=
  {| Block_configureSizeAndPorts := true;
     setPortsInfo := fun ins outs =>
       bool_decide (ins = []) && bool_decide (length outs = 7%nat) |}.

(** ** Dispatch seen as a single write *)

(** Writing one value to the accumulator field behind a channel. *)
Definition write_channel (c : nat) (v : Z) (d : EventData) : EventData :=
  match c with
  | 0%nat => set_apMaster v d
  | 1%nat => set_apMasterOff v d
  | 2%nat => set_headingSlotIndexSet v d
  | 3%nat => set_altitudeSlotIndexSet v d
  | 4%nat => set_apPanelVsOn v d
  | 5%nat => set_apLocHold v d
  | 6%nat => set_apAprHold v d
  | _ => d
  end.

(** The value a record writes to its channel: its payload on a value
    channel, 1 on a pulse channel. *)
Definition record_value (c : nat) (pData : SIMCONNECT_RECV) : Z :=
  if bool_decide (c ∈ value_channels) then dwData pData else 1.

(** A record whose kind or index [dispatchProcedure] does not handle. *)
Definition ignored (pData : SIMCONNECT_RECV) : Prop :=
  dwID pData <> SIMCONNECT_RECV_ID_EVENT \/ ~ (0 <= uEventID pData <= 7).

(** The range of a DWORD. *)
Definition dword (z : Z) : Prop := 0 <= z < 2 ^ 32.

(** * Properties *)

(** ** Dispatch *)

Lemma registerEvents_unfold : registerEvents = registerList bindings true.
Proof. reflexivity. Qed.

(** The effect of one record on each channel, whatever its kind. *)
Lemma dispatch_channels (pData : SIMCONNECT_RECV) (d : EventData) (c : nat) :
  channels (dispatchProcedure pData d) !! c =
  (if dwID pData =? SIMCONNECT_RECV_ID_EVENT
   then spec_effect (uEventID pData) (dwData pData) c
   else fun old => old) <$> (channels d !! c).
Proof.
  unfold dispatchProcedure, spec_effect, spec_rule.
  destruct (dwID pData =? SIMCONNECT_RECV_ID_EVENT).
  - destruct (uEventID pData) as [|p|p];
      [ | do 4 (try destruct p as [p|p|]) | ];
      do 7 (try destruct c as [|c]); reflexivity.
  - destruct (channels d !! c); reflexivity.
Qed.

Lemma channels_inj (d d' : EventData) : channels d = channels d' -> d = d'.
Proof.
  destruct d, d'; unfold channels; simpl; intros H.
  injection H as -> -> -> -> -> -> ->. reflexivity.
Qed.

(** C1. For an event record, the accumulator after [dispatchProcedure] is
    the accumulator before with the rule of the specification's table
    applied: indices 0, 1, 4, 5 write 1 to their own channel, indices 2 and
    3 write the payload to theirs, indices 6 and 7 both write 1 to channel
    6; every other channel keeps its value, and the seven channels are all
    there is to the accumulator. *)
Theorem dispatch_follows_table (pData : SIMCONNECT_RECV) (d : EventData) :
  dwID pData = SIMCONNECT_RECV_ID_EVENT ->
  (forall c : nat,
     channels (dispatchProcedure pData d) !! c =
     spec_effect (uEventID pData) (dwData pData) c <$> (channels d !! c)) /\
  (forall d' : EventData,
     (forall c : nat,
        channels d' !! c =
        spec_effect (uEventID pData) (dwData pData) c <$> (channels d !! c)) ->
     d' = dispatchProcedure pData d).
Proof.
  intros Hid.
  assert (Hc : forall c : nat,
     channels (dispatchProcedure pData d) !! c =
     spec_effect (uEventID pData) (dwData pData) c <$> (channels d !! c)).
  { intros c. rewrite dispatch_channels, Hid. reflexivity. }
  split; [exact Hc|].
  intros d' Hd'. apply channels_inj. apply list_eq. intros c.
  rewrite Hd', Hc. reflexivity.
Qed.

Lemma dispatch_follows_table_witness :
  dispatchProcedure (event 7 0) baseline = set_apAprHold 1 baseline /\
  dispatchProcedure (event 2 3) baseline = set_headingSlotIndexSet 3 baseline.
Proof.
  split.
  - symmetry. apply (dispatch_follows_table (event 7 0) baseline); [reflexivity|].
    intros c. do 7 (try destruct c as [|c]); reflexivity.
  - symmetry. apply (dispatch_follows_table (event 2 3) baseline); [reflexivity|].
    intros c. do 7 (try destruct c as [|c]); reflexivity.
Defined.

(** C8. A record that is not an event notification, and an event whose
    local index is outside 0..7, leave the accumulator as it was;
    [dispatchProcedure] has no failure result to report. *)
Theorem dispatch_ignores_noise (pData : SIMCONNECT_RECV) (d : EventData) :
  dwID pData <> SIMCONNECT_RECV_ID_EVENT \/ ~ (0 <= uEventID pData <= 7) ->
  dispatchProcedure pData d = d.
Proof.
  intros H. unfold dispatchProcedure.
  destruct (Z.eqb_spec (dwID pData) SIMCONNECT_RECV_ID_EVENT) as [E|E];
    [|reflexivity].
  destruct H as [H|H]; [congruence|].
  destruct (uEventID pData) as [|p|p];
    [ | do 4 (try destruct p as [p|p|]) | ];
    try reflexivity; exfalso; apply H; lia.
Qed.

Lemma dispatch_ignores_noise_witness :
  dispatchProcedure noise (set_apMaster 1 baseline) = set_apMaster 1 baseline /\
  dispatchProcedure (event 8 2) baseline = baseline /\
  dispatchProcedure (event (-1) 2) baseline = baseline.
Proof.
  split; [|split].
  - apply (dispatch_ignores_noise noise). left. vm_compute. discriminate.
  - apply (dispatch_ignores_noise (event 8 2)). right. simpl. lia.
  - apply (dispatch_ignores_noise (event (-1) 2)). right. simpl. lia.
Defined.

(** ** The drain loop *)

Lemma processDispatch_loop_drains (q : list SIMCONNECT_RECV) :
  forall w : World,
    pending (fs w) = q ->
    processDispatch_loop (S (length q)) w =
    {| self := set_data (drain q (data (self w))) (self w);
       fs := set_pending [] (fs w) |}.
Proof.
  induction q as [|pData q IH]; intros [b sc] Hq; simpl in Hq.
  - simpl. unfold SimConnect_GetNextDispatch. rewrite Hq.
    destruct b, sc; simpl in *; subst; reflexivity.
  - change (length (pData :: q)) with (S (length q)).
    remember (S (length q)) as fuel eqn:Hfuel.
    simpl. unfold SimConnect_GetNextDispatch. rewrite Hq. simpl.
    subst fuel. rewrite IH by reflexivity.
    destruct b, sc; reflexivity.
Qed.

(** [processDispatch] returns with the queue empty and the accumulator
    holding the effect of every record that was pending, in order. *)
Lemma processDispatch_drains (w : World) :
  processDispatch w =
  {| self := set_data (drain (pending (fs w)) (data (self w))) (self w);
     fs := set_pending [] (fs w) |}.
Proof. apply processDispatch_loop_drains. reflexivity. Qed.

(** ** Resolving the ports *)

Lemma collect_unresolved (blockInfo : BlockInformation) (n : nat) :
  forall (kI : nat) (acc : list OutputSignalPtr) (k : nat),
    (kI <= k < kI + n)%nat ->
    outputPortSignals blockInfo !! k = None ->
    collectOutputSignals blockInfo kI n acc = None.
Proof.
  induction n as [|n IH]; intros kI acc k Hk Hnone; [lia|].
  simpl. unfold getOutputPortSignal.
  destruct (outputPortSignals blockInfo !! kI) eqn:E; [|reflexivity].
  destruct (decide (k = kI)) as [->|Hne]; [congruence|].
  apply (IH _ _ k); [lia|assumption].
Qed.

Lemma collect_resolved (blockInfo : BlockInformation) (n : nat) :
  forall (kI : nat) (acc : list OutputSignalPtr),
    Forall (fun k => is_Some (outputPortSignals blockInfo !! k)) (seq kI n) ->
    collectOutputSignals blockInfo kI n acc = Some (acc ++ seq kI n).
Proof.
  induction n as [|n IH]; intros kI acc H; simpl.
  - rewrite app_nil_r. reflexivity.
  - inversion H as [|? ? [v Hv] Hrest]; subst.
    unfold getOutputPortSignal. rewrite Hv.
    rewrite IH by assumption. rewrite <- app_assoc. reflexivity.
Qed.

Lemma unresolved_port (blockInfo : BlockInformation) :
  ~ resolvable blockInfo ->
  exists k : nat, (k < 7)%nat /\ outputPortSignals blockInfo !! k = None.
Proof.
  unfold resolvable. intros H.
  apply not_Forall_Exists in H; [|intros k; apply _].
  apply Exists_exists in H as [k [Hin Hk]].
  exists k. split.
  - apply elem_of_seq in Hin. lia.
  - destruct (outputPortSignals blockInfo !! k) eqn:E; [|reflexivity].
    exfalso. apply Hk. eauto.
Qed.

(** ** One step *)

Lemma output_failure (blockInfo : BlockInformation) (w : World) (k : nat) :
  (k < 7)%nat ->
  outputPortSignals blockInfo !! k = None ->
  output blockInfo w = (false, blockInfo, w).
Proof.
  intros Hk Hnone. unfold output.
  rewrite (collect_unresolved blockInfo 7 0 [] k) by (assumption || lia).
  reflexivity.
Qed.

Lemma output_success (blockInfo : BlockInformation) (w : World) :
  resolvable blockInfo ->
  output blockInfo w =
  (true,
   set_outputPortSignals
     (written (drain (pending (fs w)) (data (self w)))
        (outputPortSignals blockInfo)) blockInfo,
   {| self := set_data baseline (self w); fs := set_pending [] (fs w) |}).
Proof.
  intros H. unfold output.
  rewrite (collect_resolved blockInfo 7 0 []) by exact H.
  rewrite processDispatch_drains.
  destruct blockInfo, w as [b sc]; destruct b; reflexivity.
Qed.

Lemma written_lookup (d : EventData) (s : gmap nat Z) (c : nat) :
  (c < 7)%nat -> written d s !! c = channels d !! c.
Proof.
  intros Hc. unfold written.
  do 7 (destruct c as [|c];
        [repeat (rewrite lookup_insert_ne by lia);
         rewrite lookup_insert_eq; reflexivity|]).
  lia.
Qed.

Lemma written_frame (d : EventData) (s : gmap nat Z) (c : nat) :
  (7 <= c)%nat -> written d s !! c = s !! c.
Proof.
  intros Hc. unfold written.
  repeat (rewrite lookup_insert_ne by lia). reflexivity.
Qed.

Lemma written_resolvable (d : EventData) (blockInfo : BlockInformation) :
  resolvable
    (set_outputPortSignals (written d (outputPortSignals blockInfo)) blockInfo).
Proof.
  unfold resolvable. apply Forall_forall. intros c Hc.
  apply elem_of_seq in Hc. simpl.
  rewrite written_lookup by lia.
  do 7 (destruct c as [|c]; [eexists; reflexivity|]). lia.
Qed.

(** C4. When one of the seven output ports does not resolve, [output]
    returns false and hands back the port buffers and the world (the
    accumulator, the pending queue, every other member) exactly as it got
    them: nothing was written and nothing was drained. *)
Theorem output_unresolved_is_atomic
  (blockInfo : BlockInformation) (w : World) (k : nat) :
  (k < 7)%nat ->
  outputPortSignals blockInfo !! k = None ->
  output blockInfo w = (false, blockInfo, w).
Proof. apply output_failure. Qed.

Lemma output_unresolved_is_atomic_witness :
  output engine_without_port3 (arrive example_window fresh_world) =
  (false, engine_without_port3, arrive example_window fresh_world).
Proof.
  apply (output_unresolved_is_atomic _ _ 3%nat); [lia|reflexivity].
Defined.

(** ** Registration *)

Lemma failed_succeeded (hr : HRESULT) : SUCCEEDED hr = negb (FAILED hr).
Proof. unfold SUCCEEDED, FAILED. destruct (Z.ltb_spec hr 0), (Z.leb_spec 0 hr); (reflexivity || lia). Qed.

Lemma log_append_nil (w : World) : log_append [] w = w.
Proof.
  destruct w as [b sc]; destruct sc. unfold log_append; simpl.
  rewrite app_nil_r. reflexivity.
Qed.

Lemma log_append_app (l1 l2 : list (Call * HRESULT)) (w : World) :
  log_append l2 (log_append l1 w) = log_append (l1 ++ l2) w.
Proof.
  unfold log_append, set_fs, set_calls; simpl.
  rewrite app_assoc. reflexivity.
Qed.

Lemma log_append_fs (l : list (Call * HRESULT)) (w : World) :
  fs (log_append l w) = set_calls (calls (fs w) ++ l) (fs w).
Proof. reflexivity. Qed.

Lemma new_calls_append (w w' : World) (l : list (Call * HRESULT)) :
  fs w' = set_calls (calls (fs w) ++ l) (fs w) -> new_calls w w' = l.
Proof.
  intros H. unfold new_calls. rewrite H. simpl. apply drop_app_length.
Qed.

Lemma addEvent_spec (mask : Z -> bool) (eventId : Z) (eventName : string)
  (shouldMask : bool) (w : World) :
  shouldMask = mask eventId ->
  exists l : list (Call * HRESULT),
    addEvent eventId eventName shouldMask w =
      (forallb succeeded l, log_append l w) /\
    mapped_events l = [(eventId, eventName)] /\
    attached l =
      map (fun id => (0, id, if mask id then 1 else 0)) (mapped_ok l).
Proof.
  intros ->.
  unfold addEvent, bind, SimConnect_MapClientEventToSimEvent,
    SimConnect_AddClientEventToNotificationGroup, SimConnect_call, ret.
  set (c1 := MapClientEventToSimEvent eventId eventName).
  set (hr1 := respond (fs w) (calls (fs w)) c1).
  destruct (FAILED hr1) eqn:F1.
  - exists [(c1, hr1)]. unfold succeeded, mapped_events, mapped_ok, attached.
    simpl. rewrite F1. auto.
  - set (w1 := log_append [(c1, hr1)] w).
    set (c2 := AddClientEventToNotificationGroup 0 eventId
                 (if mask eventId then 1 else 0)).
    set (hr2 := respond (fs w1) (calls (fs w1)) c2).
    exists [(c1, hr1); (c2, hr2)].
    unfold succeeded, mapped_events, mapped_ok, attached. simpl.
    rewrite F1. subst w1. rewrite log_append_app. simpl.
    destruct (FAILED hr2); auto.
Qed.

Lemma registerList_spec (mask : Z -> bool) (bs : list (Z * string * bool)) :
  Forall (fun b => snd b = mask (fst (fst b))) bs ->
  forall (boolResult : bool) (w : World),
  exists l : list (Call * HRESULT),
    registerList bs boolResult w =
      (boolResult && forallb succeeded l, log_append l w) /\
    mapped_events l = map fst bs /\
    attached l = map (fun id => (0, id, if mask id then 1 else 0)) (mapped_ok l).
Proof.
  induction bs as [|[[eventId eventName] shouldMask] bs IH];
    intros Hmask boolResult w.
  - exists []. simpl. unfold ret.
    rewrite andb_true_r, log_append_nil. auto.
  - inversion Hmask as [|? ? Hb Hbs]; subst. simpl in Hb.
    destruct (addEvent_spec mask eventId eventName shouldMask w Hb)
      as (l1 & E1 & M1 & A1).
    destruct (IH Hbs (boolResult && forallb succeeded l1) (log_append l1 w))
      as (l2 & E2 & M2 & A2).
    exists (l1 ++ l2).
    change (registerList ((eventId, eventName, shouldMask) :: bs) boolResult w)
      with (bind (addEvent eventId eventName shouldMask)
              (fun r => registerList bs (boolResult && r)) w).
    unfold bind. rewrite E1, E2, log_append_app, forallb_app, andb_assoc.
    split; [reflexivity|].
    unfold mapped_events, attached, mapped_ok in *.
    rewrite !omap_app, map_app. rewrite M1, M2, A1, A2.
    auto.
Qed.

Lemma bindings_masked :
  Forall (fun b : Z * string * bool => snd b = masked (fst (fst b))) bindings.
Proof. repeat constructor. Qed.

Lemma set_calls_nil (sc : SimConnect) : set_calls (calls sc ++ []) sc = sc.
Proof. destruct sc; unfold set_calls; simpl. rewrite app_nil_r. reflexivity. Qed.

Lemma verdict_run (b : bool) (w : World) :
  (if b then ret false else ret true) w = (negb b, w).
Proof. destruct b; reflexivity. Qed.

(** The part of [initialize] that talks to the simulator. *)
Lemma connect_and_register_spec (cn : string) (w : World) :
  let m :=
    (do connected <- SimConnect_Open cn;
     if FAILED connected then ret false else
     do boolResult <- registerEvents;
     do result <- SimConnect_SetNotificationGroupPriority 0
                    SIMCONNECT_GROUP_PRIORITY_HIGHEST_MASKABLE;
     if FAILED result || negb boolResult then ret false else
     ret true) in
  forall (r : bool) (w' : World),
    m w = (r, w') ->
    exists l : list (Call * HRESULT),
      fs w' = set_calls (calls (fs w) ++ l) (fs w) /\
      data (self w') = data (self w) /\
      configurationIndex (self w') = configurationIndex (self w) /\
      init_outcome r l.
Proof.
  intros m r w' E. subst m.
  unfold bind at 1 in E. unfold SimConnect_Open, bind at 1, SimConnect_call in E.
  set (hr := respond (fs w) (calls (fs w)) (Open cn)) in E.
  rewrite failed_succeeded in E.
  destruct (FAILED hr) eqn:F; cbn [negb] in E;
    [unfold ret at 1 in E|]; cbn beta iota in E; rewrite F in E.
  - unfold ret in E. injection E as <- <-.
    exists [(Open cn, hr)]. rewrite log_append_fs. auto using init_outcome.
  - set (w1 := set_self _ _) in E.
    assert (Hfs : fs w1 = set_calls (calls (fs w) ++ [(Open cn, hr)]) (fs w))
      by reflexivity.
    assert (Hd : data (self w1) = data (self w)) by reflexivity.
    assert (Hc : configurationIndex (self w1) = configurationIndex (self w))
      by reflexivity.
    clearbody w1.
    rewrite registerEvents_unfold in E. unfold bind in E.
    destruct (registerList_spec masked bindings bindings_masked true w1)
      as (lr & E' & Mp & At).
    rewrite E' in E.
    unfold SimConnect_SetNotificationGroupPriority, SimConnect_call in E.
    set (prio := SetNotificationGroupPriority 0
                   SIMCONNECT_GROUP_PRIORITY_HIGHEST_MASKABLE) in E.
    set (hp := respond _ _ prio) in E.
    rewrite verdict_run, log_append_app in E. injection E as <- <-.
    exists ((Open cn, hr) :: lr ++ [(prio, hp)]).
    split; [|split; [|split]].
    + rewrite log_append_fs, Hfs. unfold set_calls; simpl.
      rewrite <- app_assoc. reflexivity.
    + exact Hd.
    + exact Hc.
    + match goal with
      | |- init_outcome ?b _ =>
        replace b with (forallb succeeded lr && negb (FAILED hp))
          by (destruct (FAILED hp), (forallb succeeded lr); reflexivity)
      end.
      apply init_registered; assumption.
Qed.

Lemma initialize_spec (blockInfo : BlockInformation) (w : World) :
  exists l : list (Call * HRESULT),
    fs (snd (initialize blockInfo w)) = set_calls (calls (fs w) ++ l) (fs w) /\
    data (self (snd (initialize blockInfo w))) = data (self w) /\
    init_outcome (fst (initialize blockInfo w)) l.
Proof.
  assert (Hnone : forall (w' : World),
            fs w' = fs w -> data (self w') = data (self w) ->
            exists l, fs w' = set_calls (calls (fs w) ++ l) (fs w) /\
                      data (self w') = data (self w) /\ init_outcome false l).
  { intros w' Hfs Hd. exists []. rewrite set_calls_nil. auto using init_outcome. }
  destruct (initialize blockInfo w) as [r w'] eqn:E. cbn [fst snd].
  unfold initialize in E.
  destruct (Block_initialize blockInfo); cbn [negb] in E;
    [|injection E as <- <-; apply Hnone; reflexivity].
  unfold parseParameters, bind at 1 in E.
  destruct (forallb _ _);
    [|injection E as <- <-; apply Hnone; reflexivity].
  destruct (parsedParameters blockInfo) as [p|];
    [|injection E as <- <-; apply Hnone; reflexivity].
  unfold bind at 1, modify_self, ret at 1 in E. cbn [negb] in E.
  cbn [self set_self m_parameters set_m_parameters set_configurationIndex] in E.
  destruct (getParameter_int p "ConfigurationIndex") as [ci|];
    [|injection E as <- <-; apply Hnone; reflexivity].
  destruct (getParameter_string p "ConnectionName") as [cn|];
    [|injection E as <- <-; apply Hnone; reflexivity].
  match type of E with
  | bind _ _ ?w0 = _ =>
    destruct (connect_and_register_spec cn w0 r w' E) as (l & Hfs & Hd & _ & Ho)
  end.
  exists l. auto.
Qed.

(** A successful [initialize] has stored the ConfigurationIndex parameter
    in the member of that name. *)
Lemma initialize_reads_configurationIndex
  (blockInfo : BlockInformation) (w : World)
  (p : gmap string ParameterValue) (ci : Z) :
  parsedParameters blockInfo = Some (<["ConfigurationIndex" := IntValue ci]> p) ->
  fst (initialize blockInfo w) = true ->
  configurationIndex (self (snd (initialize blockInfo w))) = ci.
Proof.
  intros Hp.
  destruct (initialize blockInfo w) as [r w'] eqn:E. cbn [fst snd].
  unfold initialize in E.
  destruct (Block_initialize blockInfo); cbn [negb] in E;
    [|injection E as <- <-; discriminate].
  unfold parseParameters, bind at 1 in E. rewrite Hp in E.
  destruct (forallb _ _);
    [|injection E as <- <-; discriminate].
  unfold bind at 1, modify_self, ret at 1 in E. cbn [negb] in E.
  cbn [self set_self m_parameters set_m_parameters set_configurationIndex] in E.
  unfold getParameter_int at 1 in E. rewrite lookup_insert_eq in E.
  destruct (getParameter_string _ "ConnectionName") as [cn|];
    [|injection E as <- <-; discriminate].
  match type of E with
  | bind _ _ ?w0 = _ =>
    destruct (connect_and_register_spec cn w0 r w' E) as (l & _ & _ & Hc & _)
  end.
  intros _. rewrite Hc. reflexivity.
Qed.

(** ** The accumulator between steps *)

Lemma output_unresolvable (blockInfo : BlockInformation) (w : World) :
  ~ resolvable blockInfo -> output blockInfo w = (false, blockInfo, w).
Proof.
  intros H. destruct (unresolved_port blockInfo H) as (k & Hk & Hnone).
  exact (output_failure blockInfo w k Hk Hnone).
Qed.

Lemma output_keeps_baseline (blockInfo : BlockInformation) (w : World) :
  data (self w) = baseline ->
  data (self (snd (output blockInfo w))) = baseline.
Proof.
  intros H. destruct (decide (resolvable blockInfo)) as [Hr|Hr].
  - rewrite output_success by assumption. reflexivity.
  - rewrite output_unresolvable by assumption. exact H.
Qed.

(** Whenever the engine can call [output], the accumulator is at its
    baseline: only [output] itself ever moves it, and it puts it back. *)
Lemma reachable_baseline (w : World) : reachable w -> data (self w) = baseline.
Proof.
  induction 1 as [b sc Hb | blockInfo w Hw IH | recs w Hw IH
                 | blockInfo w Hw IH | w Hw IH].
  - exact Hb.
  - destruct (initialize_spec blockInfo w) as (l & _ & Hd & _).
    rewrite Hd. exact IH.
  - exact IH.
  - apply output_keeps_baseline. exact IH.
  - exact IH.
Qed.

(** ** What a window leaves in each channel *)

Lemma pulse_channel_lt (c : nat) : c ∈ pulse_channels -> (c < 7)%nat.
Proof. unfold pulse_channels. set_unfold. lia. Qed.

Lemma value_channel_lt (c : nat) : c ∈ value_channels -> (c < 7)%nat.
Proof. unfold value_channels. set_unfold. lia. Qed.

Lemma dispatch_pulse (c : nat) (pData : SIMCONNECT_RECV) (d : EventData) (v : Z) :
  c ∈ pulse_channels ->
  channels d !! c = Some v ->
  channels (dispatchProcedure pData d) !! c =
  Some (if maps_to c pData then 1 else v).
Proof.
  intros Hc Hv. rewrite dispatch_channels, Hv. simpl. f_equal.
  unfold maps_to, record_channel, spec_effect, spec_rule.
  destruct (dwID pData =? SIMCONNECT_RECV_ID_EVENT); [|reflexivity].
  unfold pulse_channels in Hc. set_unfold.
  destruct (uEventID pData) as [|p|p];
    [ | do 4 (try destruct p as [p|p|]) | ];
    destruct Hc as [->|[->|[->|[->|[->|[]]]]]]; reflexivity.
Qed.

Lemma dispatch_value (c : nat) (pData : SIMCONNECT_RECV) (d : EventData) (v : Z) :
  c ∈ value_channels ->
  channels d !! c = Some v ->
  channels (dispatchProcedure pData d) !! c =
  Some (if maps_to c pData then dwData pData else v).
Proof.
  intros Hc Hv. rewrite dispatch_channels, Hv. simpl. f_equal.
  unfold maps_to, record_channel, spec_effect, spec_rule.
  destruct (dwID pData =? SIMCONNECT_RECV_ID_EVENT); [|reflexivity].
  unfold value_channels in Hc. set_unfold.
  destruct (uEventID pData) as [|p|p];
    [ | do 4 (try destruct p as [p|p|]) | ];
    destruct Hc as [->|[->|[]]]; reflexivity.
Qed.

Lemma drain_pulse (c : nat) (recs : list SIMCONNECT_RECV) :
  c ∈ pulse_channels ->
  forall (d : EventData) (v : Z),
    channels d !! c = Some v ->
    channels (drain recs d) !! c =
    Some (if existsb (maps_to c) recs then 1 else v).
Proof.
  intros Hc. induction recs as [|pData recs IH]; intros d v Hv.
  - exact Hv.
  - change (drain (pData :: recs) d) with (drain recs (dispatchProcedure pData d)).
    rewrite (IH _ _ (dispatch_pulse c pData d v Hc Hv)). simpl.
    destruct (maps_to c pData), (existsb (maps_to c) recs); reflexivity.
Qed.

Lemma drain_value (c : nat) (recs : list SIMCONNECT_RECV) :
  c ∈ value_channels ->
  forall (d : EventData) (v : Z),
    channels d !! c = Some v ->
    channels (drain recs d) !! c =
    Some (match last (List.filter (maps_to c) recs) with
          | Some pData => dwData pData
          | None => v
          end).
Proof.
  intros Hc. induction recs as [|pData recs IH]; intros d v Hv.
  - exact Hv.
  - change (drain (pData :: recs) d) with (drain recs (dispatchProcedure pData d)).
    rewrite (IH _ _ (dispatch_value c pData d v Hc Hv)). simpl.
    destruct (maps_to c pData); [|reflexivity].
    rewrite last_cons.
    destruct (last (List.filter (maps_to c) recs)); reflexivity.
Qed.

Lemma existsb_maps_to (c : nat) (recs : list SIMCONNECT_RECV) :
  existsb (maps_to c) recs = true <->
  exists pData, pData ∈ recs /\ record_channel pData = Some c.
Proof.
  rewrite existsb_exists. unfold maps_to. split.
  - intros (x & Hin & Hx). exists x. split.
    + apply list_elem_of_In. exact Hin.
    + apply bool_decide_eq_true in Hx. exact Hx.
  - intros (x & Hin & Hx). exists x. split.
    + apply list_elem_of_In. exact Hin.
    + apply bool_decide_eq_true. exact Hx.
Qed.

Lemma baseline_channels (c : nat) : (c < 7)%nat -> channels baseline !! c = Some 0.
Proof. intros Hc. do 7 (destruct c as [|c]; [reflexivity|]). lia. Qed.

(** C2. In a step whose ports all resolve, a pulse channel (0, 1, 4, 5 or
    6) reads 1 exactly when the window drained by the step holds at least
    one record that maps to the channel, and 0 exactly when it holds none;
    the number of such records makes no difference. *)
Theorem pulse_channel_iff
  (blockInfo : BlockInformation) (w : World) (c : nat) :
  reachable w ->
  resolvable blockInfo ->
  c ∈ pulse_channels ->
  let fired :=
    exists pData, pData ∈ pending (fs w) /\ record_channel pData = Some c in
  let out := outputPortSignals (snd (fst (output blockInfo w))) !! c in
  fst (fst (output blockInfo w)) = true /\
  (out = Some 1 <-> fired) /\
  (out = Some 0 <-> ~ fired).
Proof.
  intros Hw Hr Hc fired out. subst fired out.
  rewrite output_success by assumption. cbn [fst snd outputPortSignals set_outputPortSignals].
  rewrite written_lookup by (apply pulse_channel_lt; assumption).
  rewrite (reachable_baseline w Hw).
  rewrite (drain_pulse c _ Hc baseline 0)
    by (apply baseline_channels, pulse_channel_lt; assumption).
  rewrite <- existsb_maps_to.
  destruct (existsb (maps_to c) (pending (fs w))); split; try reflexivity;
    split; split; intros H; try reflexivity; try discriminate;
    try (exfalso; apply H; reflexivity).
Qed.

Lemma example_reachable : reachable (arrive example_window fresh_world).
Proof. apply reach_arrive. apply (reach_start fresh_block willing_sim). reflexivity. Qed.

Lemma engine_resolvable : resolvable engine.
Proof. unfold resolvable. repeat constructor; eexists; reflexivity. Qed.

Lemma pulse_channel_iff_witness :
  outputPortSignals
    (snd (fst (output engine (arrive example_window fresh_world)))) !! 6%nat =
  Some 1 /\
  outputPortSignals
    (snd (fst (output engine (arrive example_window fresh_world)))) !! 1%nat =
  Some 0.
Proof.
  split.
  - apply (pulse_channel_iff engine (arrive example_window fresh_world) 6%nat
             example_reachable engine_resolvable).
    + unfold pulse_channels. set_solver.
    + exists (event 7 0). split; [|reflexivity].
      unfold example_window. set_solver.
  - apply (pulse_channel_iff engine (arrive example_window fresh_world) 1%nat
             example_reachable engine_resolvable).
    + unfold pulse_channels. set_solver.
    + intros (pData & Hin & Hch). unfold example_window in Hin. simpl in Hin.
      set_unfold. destruct Hin as [->|[->|[->|[]]]]; discriminate.
Defined.

(** C3. In a step whose ports all resolve, a value channel (2 or 3) reads
    the payload of the last record of the drained window that maps to it,
    and 0 when the window holds no such record. *)
Theorem value_channel_last_write
  (blockInfo : BlockInformation) (w : World) (c : nat) :
  reachable w ->
  resolvable blockInfo ->
  c ∈ value_channels ->
  fst (fst (output blockInfo w)) = true /\
  outputPortSignals (snd (fst (output blockInfo w))) !! c =
  Some (last_payload c (pending (fs w))).
Proof.
  intros Hw Hr Hc.
  rewrite output_success by assumption.
  cbn [fst snd outputPortSignals set_outputPortSignals].
  split; [reflexivity|].
  rewrite written_lookup by (apply value_channel_lt; assumption).
  rewrite (reachable_baseline w Hw).
  apply (drain_value c _ Hc baseline 0).
  apply baseline_channels, value_channel_lt; assumption.
Qed.

Lemma value_channel_last_write_witness :
  outputPortSignals
    (snd (fst (output engine
                 (arrive [event 2 3; event 3 8; noise; event 2 5] fresh_world))))
    !! 2%nat = Some 5 /\
  outputPortSignals
    (snd (fst (output engine (arrive example_window fresh_world)))) !! 3%nat =
  Some 0.
Proof.
  split.
  - apply (value_channel_last_write engine
             (arrive [event 2 3; event 3 8; noise; event 2 5] fresh_world) 2%nat).
    + apply reach_arrive. apply (reach_start fresh_block willing_sim). reflexivity.
    + exact engine_resolvable.
    + unfold value_channels. set_solver.
  - apply (value_channel_last_write engine
             (arrive example_window fresh_world) 3%nat).
    + exact example_reachable.
    + exact engine_resolvable.
    + unfold value_channels. set_solver.
Defined.

(** The example of the specification: indices 0, 2 (payload 3) and 7 in
    one window give [1,0,3,0,0,0,1]; the next step, with no records, gives
    all zeros. *)
Example spec_example :
  run [example_window; []] engine fresh_world =
  [ (true, list_to_map [(0%nat, 1); (1%nat, 0); (2%nat, 3); (3%nat, 0);
                        (4%nat, 0); (5%nat, 0); (6%nat, 1)]);
    (true, list_to_map [(0%nat, 0); (1%nat, 0); (2%nat, 0); (3%nat, 0);
                        (4%nat, 0); (5%nat, 0); (6%nat, 0)]) ].
Proof. vm_compute. reflexivity. Qed.

(** C5. A step whose ports resolve drains everything pending, copies the
    accumulator as it is after the drain to ports 0-6, resets the
    accumulator and returns true.  So of two consecutive steps the first
    shows the records drained by it, the second shows only the records of
    its own window, and two steps without any record both show zeros. *)
Theorem step_drains_copies_resets
  (blockInfo : BlockInformation) (w : World)
  (recs1 recs2 : list SIMCONNECT_RECV) :
  resolvable blockInfo ->
  let d1 := drain (pending (fs w) ++ recs1) (data (self w)) in
  let d2 := drain recs2 baseline in
  let w1 := snd (output blockInfo (arrive recs1 w)) in
  exists ports1 ports2 : gmap nat Z,
    run [recs1; recs2] blockInfo w = [(true, ports1); (true, ports2)] /\
    (forall c : nat, (c < 7)%nat ->
       ports1 !! c = channels d1 !! c /\ ports2 !! c = channels d2 !! c) /\
    data (self w1) = baseline /\
    pending (fs w1) = [] /\
    (reachable w -> pending (fs w) = [] -> recs1 = [] -> recs2 = [] ->
     forall c : nat, (c < 7)%nat -> ports1 !! c = Some 0 /\ ports2 !! c = Some 0).
Proof.
  intros Hr d1 d2 w1. subst w1.
  unfold run.
  rewrite (output_success blockInfo (arrive recs1 w) Hr).
  cbn [fst snd].
  rewrite output_success by apply written_resolvable.
  cbn [fst snd self fs data pending set_data set_pending arrive set_fs
       outputPortSignals set_outputPortSignals app].
  fold d1. fold d2.
  eexists; eexists. split; [reflexivity|].
  assert (Hch : forall c : nat, (c < 7)%nat ->
            written d1 (outputPortSignals blockInfo) !! c = channels d1 !! c /\
            written d2 (written d1 (outputPortSignals blockInfo)) !! c =
            channels d2 !! c).
  { intros c Hc. rewrite !written_lookup by assumption. auto. }
  split; [exact Hch|].
  split; [reflexivity|]. split; [reflexivity|].
  intros Hw Hq -> -> c Hc.
  destruct (Hch c Hc) as [H1 H2]. rewrite H1, H2.
  subst d1 d2. rewrite Hq, (reachable_baseline w Hw). simpl.
  split; apply baseline_channels; assumption.
Qed.

Lemma step_drains_copies_resets_witness :
  (exists ports1 ports2 : gmap nat Z,
     run [example_window; []] engine fresh_world =
       [(true, ports1); (true, ports2)] /\
     ports1 !! 2%nat = Some 3 /\ ports1 !! 6%nat = Some 1 /\
     ports2 !! 2%nat = Some 0 /\ ports2 !! 6%nat = Some 0) /\
  (exists ports1 ports2 : gmap nat Z,
     run [[]; []] engine fresh_world = [(true, ports1); (true, ports2)] /\
     forall c : nat, (c < 7)%nat -> ports1 !! c = Some 0 /\ ports2 !! c = Some 0).
Proof.
  split.
  - destruct (step_drains_copies_resets engine fresh_world example_window []
                engine_resolvable)
      as (ports1 & ports2 & Hrun & Hch & _).
    exists ports1, ports2. split; [exact Hrun|].
    destruct (Hch 2%nat ltac:(lia)) as [H2 H2'].
    destruct (Hch 6%nat ltac:(lia)) as [H6 H6'].
    rewrite H2, H6, H2', H6'. repeat split; reflexivity.
  - destruct (step_drains_copies_resets engine fresh_world [] []
                engine_resolvable)
      as (ports1 & ports2 & Hrun & _ & _ & _ & Hzero).
    exists ports1, ports2. split; [exact Hrun|].
    apply Hzero; try reflexivity.
    apply (reach_start fresh_block willing_sim). reflexivity.
Defined.

(** ** Initialization *)

Lemma initialize_log (blockInfo : BlockInformation) (w : World) :
  init_outcome (fst (initialize blockInfo w))
    (new_calls w (snd (initialize blockInfo w))).
Proof.
  destruct (initialize_spec blockInfo w) as (l & Hfs & _ & Ho).
  rewrite (new_calls_append _ _ _ Hfs). exact Ho.
Qed.

Lemma mapped_ok_all (l : list (Call * HRESULT)) :
  forallb succeeded l = true -> mapped_ok l = map fst (mapped_events l).
Proof.
  induction l as [|[c hr] l IH]; [reflexivity|].
  simpl. intros H. apply andb_true_iff in H as [Hs Hl].
  unfold mapped_ok, mapped_events in *. simpl.
  unfold succeeded in Hs. simpl in Hs. apply negb_true_iff in Hs.
  destruct c; simpl; rewrite ?Hs; rewrite ?IH by assumption; reflexivity.
Qed.

(** Reading the registration calls out of a whole [initialize] log. *)
Lemma init_outcome_views (r : bool) (l : list (Call * HRESULT)) :
  init_outcome r l ->
  attached l = map (fun id => (0, id, if masked id then 1 else 0)) (mapped_ok l) /\
  (mapped_events l = [] \/ mapped_events l = map fst bindings) /\
  (r = true ->
   mapped_events l = map fst bindings /\ mapped_ok l = map fst (map fst bindings)) /\
  (forall name hr,
     head l = Some (Open name, hr) -> FAILED hr = false ->
     mapped_events l = map fst bindings).
Proof.
  intros [ | name hr F | name hr lr hp F Mp At ].
  - split; [reflexivity|]. split; [left; reflexivity|].
    split; [discriminate|]. intros ? ? H. discriminate.
  - split; [reflexivity|]. split; [left; reflexivity|].
    split; [discriminate|]. intros ? ? H H'. injection H as <- <-. congruence.
  - assert (Hm : mapped_events ((Open name, hr) :: lr ++
               [(SetNotificationGroupPriority 0
                   SIMCONNECT_GROUP_PRIORITY_HIGHEST_MASKABLE, hp)]) =
             mapped_events lr).
    { unfold mapped_events. simpl. rewrite omap_app. simpl. apply app_nil_r. }
    assert (Ho : mapped_ok ((Open name, hr) :: lr ++
               [(SetNotificationGroupPriority 0
                   SIMCONNECT_GROUP_PRIORITY_HIGHEST_MASKABLE, hp)]) =
             mapped_ok lr).
    { unfold mapped_ok. simpl. rewrite omap_app. simpl. apply app_nil_r. }
    assert (Ha : attached ((Open name, hr) :: lr ++
               [(SetNotificationGroupPriority 0
                   SIMCONNECT_GROUP_PRIORITY_HIGHEST_MASKABLE, hp)]) =
             attached lr).
    { unfold attached. simpl. rewrite omap_app. simpl. apply app_nil_r. }
    rewrite Hm, Ho, Ha. split; [exact At|]. split; [right; exact Mp|].
    split; [|intros; exact Mp].
    intros Hr. apply andb_true_iff in Hr as [Hall _].
    split; [exact Mp|]. rewrite mapped_ok_all by exact Hall. rewrite Mp.
    reflexivity.
Qed.

(** C6. [initialize] returns false whenever any call it made to the
    simulator failed: the [Open], any name mapping, any group attachment,
    or the priority call - whatever the calls after the failed one
    returned. *)
Theorem initialize_fails_on_any_failed_call
  (blockInfo : BlockInformation) (w : World) (c : Call) (hr : HRESULT) :
  (c, hr) ∈ new_calls w (snd (initialize blockInfo w)) ->
  FAILED hr = true ->
  fst (initialize blockInfo w) = false.
Proof.
  intros Hin HF.
  destruct (initialize_log blockInfo w) as [ | name hr0 F | name hr0 lr hp F Mp At ].
  - reflexivity.
  - reflexivity.
  - apply elem_of_cons in Hin as [Heq|Hin].
    { injection Heq as -> ->. congruence. }
    apply elem_of_app in Hin as [Hin|Hin].
    + destruct (forallb succeeded lr) eqn:Hall; [|reflexivity].
      exfalso. rewrite forallb_forall in Hall.
      apply list_elem_of_In in Hin. specialize (Hall _ Hin).
      unfold succeeded in Hall. simpl in Hall. rewrite HF in Hall. discriminate.
    + apply list_elem_of_singleton in Hin. injection Hin as -> ->.
      rewrite HF. apply andb_false_r.
Qed.

Lemma initialize_fails_on_any_failed_call_witness :
  fst (initialize engine picky_world) = false /\
  (MapClientEventToSimEvent 7 "AP_APR_HOLD_ON", S_OK)
    ∈ new_calls picky_world (snd (initialize engine picky_world)).
Proof.
  split.
  - apply (initialize_fails_on_any_failed_call engine picky_world
             (MapClientEventToSimEvent 3 "ALTITUDE_SLOT_INDEX_SET") E_FAIL).
    + vm_compute. repeat constructor.
    + reflexivity.
  - vm_compute. repeat constructor.
Defined.

(** C7, as stated, fails: [initialize] writes out eight bindings, not
    seven, and with a simulator that accepts every call it requests eight
    name mappings; and with a simulator that refuses the name mapping of
    event 3, no group attachment is requested for event 3. *)
Lemma seven_bindings_counterexample :
  ~ (length bindings = 7%nat) /\
  ~ (length (mapped_events
               (new_calls fresh_world (snd (initialize engine fresh_world)))) =
     7%nat) /\
  ~ In 3 (map (fun a : Z * Z * Z => snd (fst a))
            (attached
               (new_calls picky_world (snd (initialize engine picky_world))))).
Proof.
  split; [|split].
  - vm_compute. discriminate.
  - vm_compute. discriminate.
  - vm_compute. intros H. repeat (destruct H as [H|H]; [discriminate|]). exact H.
Qed.

(** C7, amended. Once the connection is open, [initialize] requests the
    name mapping of exactly eight bindings, local indices 0 to 7 in this
    order, and requests the group attachment of exactly those whose name
    mapping succeeded - of all eight when every call succeeds. *)
Theorem registers_eight_bindings
  (blockInfo : BlockInformation) (w : World) (name : string) (hr : HRESULT) :
  head (new_calls w (snd (initialize blockInfo w))) = Some (Open name, hr) ->
  FAILED hr = false ->
  let l := new_calls w (snd (initialize blockInfo w)) in
  mapped_events l =
    [ (0, "AP_MASTER"); (1, "AUTOPILOT_OFF"); (2, "HEADING_SLOT_INDEX_SET");
      (3, "ALTITUDE_SLOT_INDEX_SET"); (4, "AP_PANEL_VS_ON"); (5, "AP_LOC_HOLD");
      (6, "AP_LOC_HOLD_OFF"); (7, "AP_APR_HOLD_ON") ] /\
  map (fun a => snd (fst a)) (attached l) = mapped_ok l /\
  (fst (initialize blockInfo w) = true ->
   map (fun a => snd (fst a)) (attached l) = [0; 1; 2; 3; 4; 5; 6; 7]).
Proof.
  intros Hhead HF l.
  destruct (init_outcome_views _ _ (initialize_log blockInfo w))
    as (At & _ & Hok & Hopen).
  fold l in At, Hok, Hopen.
  assert (Hids : map (fun a : Z * Z * Z => snd (fst a)) (attached l) = mapped_ok l).
  { rewrite At, map_map. simpl. apply map_id. }
  split; [exact (Hopen name hr Hhead HF)|].
  split; [exact Hids|].
  intros Hr. rewrite Hids. destruct (Hok Hr) as [_ ->]. reflexivity.
Qed.

Lemma registers_eight_bindings_witness :
  length (mapped_events
            (new_calls picky_world (snd (initialize engine picky_world)))) =
  8%nat /\
  map (fun a : Z * Z * Z => snd (fst a))
    (attached (new_calls picky_world (snd (initialize engine picky_world)))) =
  [0; 1; 2; 4; 5; 6; 7].
Proof.
  destruct (registers_eight_bindings engine picky_world "events" S_OK
              ltac:(reflexivity) ltac:(reflexivity)) as (Hm & Ha & _).
  split.
  - rewrite Hm. reflexivity.
  - rewrite Ha. reflexivity.
Defined.

(** C10. Every group attachment [initialize] requests is to group 0 and
    carries the masking flag 1 for event 0 and 0 for any other event; the
    events are the eight written out in [initialize], event 0 being
    "AP_MASTER".  When [initialize] succeeds the attachments are those of
    events 0 to 7, the first masked and the other seven unmasked. *)
Theorem only_ap_master_is_masked (blockInfo : BlockInformation) (w : World) :
  let l := new_calls w (snd (initialize blockInfo w)) in
  attached l =
    map (fun id => (0, id, if bool_decide (id = 0) then 1 else 0)) (mapped_ok l) /\
  (mapped_events l = [] \/
   mapped_events l =
     [ (0, "AP_MASTER"); (1, "AUTOPILOT_OFF"); (2, "HEADING_SLOT_INDEX_SET");
       (3, "ALTITUDE_SLOT_INDEX_SET"); (4, "AP_PANEL_VS_ON"); (5, "AP_LOC_HOLD");
       (6, "AP_LOC_HOLD_OFF"); (7, "AP_APR_HOLD_ON") ]) /\
  (fst (initialize blockInfo w) = true ->
   attached l =
     [ (0, 0, 1); (0, 1, 0); (0, 2, 0); (0, 3, 0);
       (0, 4, 0); (0, 5, 0); (0, 6, 0); (0, 7, 0) ]).
Proof.
  intros l.
  destruct (init_outcome_views _ _ (initialize_log blockInfo w))
    as (At & Hm & Hok & _).
  fold l in At, Hm, Hok.
  split; [exact At|]. split; [exact Hm|].
  intros Hr. rewrite At. destruct (Hok Hr) as [_ ->]. reflexivity.
Qed.

Lemma only_ap_master_is_masked_witness :
  attached (new_calls fresh_world (snd (initialize engine fresh_world))) =
  [ (0, 0, 1); (0, 1, 0); (0, 2, 0); (0, 3, 0);
    (0, 4, 0); (0, 5, 0); (0, 6, 0); (0, 7, 0) ].
Proof.
  apply (only_ap_master_is_masked engine fresh_world). reflexivity.
Defined.

(** ** The step does not look at [configurationIndex] *)

Lemma alike_refl (w : World) : alike w w.
Proof. unfold alike. auto. Qed.

Lemma respects_ret {A : Type} (a : A) : respects (ret a).
Proof. intros w1 w2 H. split; [reflexivity|exact H]. Qed.

Lemma respects_bind {A B : Type} (m : M A) (k : A -> M B) :
  respects m -> (forall a, respects (k a)) -> respects (bind m k).
Proof.
  intros Hm Hk w1 w2 H. unfold bind.
  destruct (Hm w1 w2 H) as [Hr Hw].
  destruct (m w1) as [a1 w1'], (m w2) as [a2 w2']. simpl in Hr, Hw. subst a2.
  exact (Hk a1 w1' w2' Hw).
Qed.

Lemma respects_if {A : Type} (b : bool) (m1 m2 : M A) :
  respects m1 -> respects m2 -> respects (if b then m1 else m2).
Proof. destruct b; auto. Qed.

Lemma respects_call (c : Call) : respects (SimConnect_call c).
Proof.
  intros w1 w2 (Hfs & Hd & Hn & Hh).
  unfold SimConnect_call, log_append, alike. simpl.
  rewrite Hfs. auto.
Qed.

Lemma respects_Open (szName : string) : respects (SimConnect_Open szName).
Proof.
  unfold SimConnect_Open. apply respects_bind; [apply respects_call|].
  intros hr. apply respects_if; [|apply respects_ret].
  intros w1 w2 (Hfs & Hd & Hn & Hh). unfold alike. simpl.
  rewrite Hfs. auto.
Qed.

Lemma respects_addEvent (eventId : Z) (eventName : string) (shouldMask : bool) :
  respects (addEvent eventId eventName shouldMask).
Proof.
  unfold addEvent. apply respects_bind; [apply respects_call|].
  intros hr. apply respects_if; [apply respects_ret|].
  apply respects_bind; [apply respects_call|].
  intros hr'. apply respects_if; apply respects_ret.
Qed.

Lemma respects_registerList (bs : list (Z * string * bool)) :
  forall boolResult : bool, respects (registerList bs boolResult).
Proof.
  induction bs as [|[[eventId eventName] shouldMask] bs IH]; intros boolResult.
  - apply respects_ret.
  - simpl. apply respects_bind; [apply respects_addEvent|].
    intros r. apply IH.
Qed.

Lemma respects_connect_and_register (cn : string) :
  respects
    (do connected <- SimConnect_Open cn;
     if FAILED connected then ret false else
     do boolResult <- registerEvents;
     do result <- SimConnect_SetNotificationGroupPriority 0
                    SIMCONNECT_GROUP_PRIORITY_HIGHEST_MASKABLE;
     if FAILED result || negb boolResult then ret false else
     ret true).
Proof.
  apply respects_bind; [apply respects_Open|].
  intros connected. apply respects_if; [apply respects_ret|].
  apply respects_bind.
  { rewrite registerEvents_unfold. apply respects_registerList. }
  intros boolResult. apply respects_bind; [apply respects_call|].
  intros result. apply respects_if; apply respects_ret.
Qed.

Lemma respects_results {A : Type} (m : M A) (w1 w2 : World)
  (r1 r2 : A) (w1' w2' : World) :
  respects m -> alike w1 w2 ->
  m w1 = (r1, w1') -> m w2 = (r2, w2') ->
  r1 = r2 /\ alike w1' w2'.
Proof.
  intros Hm Hw E1 E2. destruct (Hm w1 w2 Hw) as [Hr Hw'].
  rewrite E1, E2 in Hr, Hw'. auto.
Qed.

Lemma initialize_alike (blockInfo1 blockInfo2 : BlockInformation) (w : World)
  (p : gmap string ParameterValue) (ci1 ci2 : Z) :
  parsedParameters blockInfo1 = Some (<["ConfigurationIndex" := IntValue ci1]> p) ->
  parsedParameters blockInfo2 = Some (<["ConfigurationIndex" := IntValue ci2]> p) ->
  Block_initialize blockInfo1 = Block_initialize blockInfo2 ->
  addParameterMetadata blockInfo1 = addParameterMetadata blockInfo2 ->
  fst (initialize blockInfo1 w) = fst (initialize blockInfo2 w) /\
  alike (snd (initialize blockInfo1 w)) (snd (initialize blockInfo2 w)).
Proof.
  intros Hp1 Hp2 Hb Hm.
  destruct (initialize blockInfo1 w) as [r1 w1'] eqn:E1.
  destruct (initialize blockInfo2 w) as [r2 w2'] eqn:E2.
  cbn [fst snd].
  unfold initialize in E1, E2. rewrite Hb in E1.
  destruct (Block_initialize blockInfo2); cbn [negb] in E1, E2;
    [|injection E1 as <- <-; injection E2 as <- <-;
      split; [reflexivity|apply alike_refl]].
  unfold parseParameters, bind at 1 in E1.
  unfold parseParameters, bind at 1 in E2.
  rewrite Hp1, Hm in E1. rewrite Hp2 in E2.
  destruct (forallb _ _);
    [|injection E1 as <- <-; injection E2 as <- <-;
      split; [reflexivity|apply alike_refl]].
  unfold bind at 1, modify_self, ret at 1 in E1.
  unfold bind at 1, modify_self, ret at 1 in E2.
  cbn [negb self set_self m_parameters set_m_parameters
       set_configurationIndex] in E1, E2.
  unfold getParameter_int at 1 in E1. unfold getParameter_int at 1 in E2.
  rewrite lookup_insert_eq in E1. rewrite lookup_insert_eq in E2.
  unfold getParameter_string at 1 in E1. unfold getParameter_string at 1 in E2.
  rewrite (lookup_insert_ne _ "ConfigurationIndex" "ConnectionName") in E1
    by discriminate.
  rewrite (lookup_insert_ne _ "ConfigurationIndex" "ConnectionName") in E2
    by discriminate.
  destruct (p !! "ConnectionName") as [[z|cn]|];
    try (injection E1 as <- <-; injection E2 as <- <-;
         split; [reflexivity|unfold alike; simpl; auto]).
  match type of E1 with
  | bind _ _ ?w01 = _ =>
    match type of E2 with
    | bind _ _ ?w02 = _ =>
      refine (respects_results _ w01 w02 r1 r2 w1' w2'
                (respects_connect_and_register cn) _ E1 E2)
    end
  end.
  unfold alike. simpl. auto.
Qed.

Lemma output_alike (blockInfo1 blockInfo2 : BlockInformation) (w1 w2 : World) :
  outputPortSignals blockInfo1 = outputPortSignals blockInfo2 ->
  alike w1 w2 ->
  fst (fst (output blockInfo1 w1)) = fst (fst (output blockInfo2 w2)) /\
  outputPortSignals (snd (fst (output blockInfo1 w1))) =
    outputPortSignals (snd (fst (output blockInfo2 w2))) /\
  alike (snd (output blockInfo1 w1)) (snd (output blockInfo2 w2)).
Proof.
  intros Hs (Hfs & Hd & Hn & Hh).
  destruct (decide (resolvable blockInfo1)) as [Hr|Hr].
  - assert (Hr2 : resolvable blockInfo2)
      by (unfold resolvable in *; rewrite <- Hs; exact Hr).
    rewrite !output_success by assumption. unfold alike. simpl.
    rewrite Hs, Hfs, Hd. repeat split; assumption.
  - assert (Hr2 : ~ resolvable blockInfo2)
      by (unfold resolvable in *; rewrite <- Hs; exact Hr).
    rewrite !output_unresolvable by assumption. unfold alike. simpl.
    repeat split; assumption.
Qed.

Lemma arrive_alike (recs : list SIMCONNECT_RECV) (w1 w2 : World) :
  alike w1 w2 -> alike (arrive recs w1) (arrive recs w2).
Proof.
  intros (Hfs & Hd & Hn & Hh). unfold alike, arrive. simpl.
  rewrite Hfs. auto.
Qed.

Lemma run_alike (windows : list (list SIMCONNECT_RECV)) :
  forall (blockInfo1 blockInfo2 : BlockInformation) (w1 w2 : World),
    outputPortSignals blockInfo1 = outputPortSignals blockInfo2 ->
    alike w1 w2 ->
    run windows blockInfo1 w1 = run windows blockInfo2 w2.
Proof.
  induction windows as [|recs rest IH]; intros blockInfo1 blockInfo2 w1 w2 Hs Hw.
  - reflexivity.
  - simpl.
    destruct (output_alike blockInfo1 blockInfo2 _ _ Hs (arrive_alike recs _ _ Hw))
      as (Hok & Hports & Hw').
    destruct (output blockInfo1 (arrive recs w1)) as [[ok1 b1] w1'].
    destruct (output blockInfo2 (arrive recs w2)) as [[ok2 b2] w2'].
    simpl in Hok, Hports, Hw'. subst ok2. rewrite Hports.
    f_equal. apply IH; assumption.
Qed.

(** C9. Two runs whose engines differ only in the value of the
    ConfigurationIndex parameter give the same result of [initialize] and,
    for every sequence of windows of records, the same result and the same
    port values at every step - although a successful [initialize] has
    stored the two different values in [configurationIndex]. *)
Theorem configuration_index_is_not_observed
  (blockInfo1 blockInfo2 : BlockInformation) (w : World)
  (p : gmap string ParameterValue) (ci1 ci2 : Z)
  (windows : list (list SIMCONNECT_RECV)) :
  parsedParameters blockInfo1 = Some (<["ConfigurationIndex" := IntValue ci1]> p) ->
  parsedParameters blockInfo2 = Some (<["ConfigurationIndex" := IntValue ci2]> p) ->
  Block_initialize blockInfo1 = Block_initialize blockInfo2 ->
  addParameterMetadata blockInfo1 = addParameterMetadata blockInfo2 ->
  outputPortSignals blockInfo1 = outputPortSignals blockInfo2 ->
  fst (initialize blockInfo1 w) = fst (initialize blockInfo2 w) /\
  run windows blockInfo1 (snd (initialize blockInfo1 w)) =
    run windows blockInfo2 (snd (initialize blockInfo2 w)) /\
  (fst (initialize blockInfo1 w) = true ->
   configurationIndex (self (snd (initialize blockInfo1 w))) = ci1 /\
   configurationIndex (self (snd (initialize blockInfo2 w))) = ci2).
Proof.
  intros Hp1 Hp2 Hb Hm Hs.
  destruct (initialize_alike blockInfo1 blockInfo2 w p ci1 ci2 Hp1 Hp2 Hb Hm)
    as [Hr Hw].
  split; [exact Hr|]. split.
  - apply run_alike; assumption.
  - intros Hok. split.
    + exact (initialize_reads_configurationIndex blockInfo1 w p ci1 Hp1 Hok).
    + rewrite Hr in Hok.
      exact (initialize_reads_configurationIndex blockInfo2 w p ci2 Hp2 Hok).
Qed.

Lemma configuration_index_is_not_observed_witness :
  run [example_window; []; [event 3 4]] (engine_with 1 all_ports)
    (snd (initialize (engine_with 1 all_ports) fresh_world)) =
  run [example_window; []; [event 3 4]] (engine_with 2 all_ports)
    (snd (initialize (engine_with 2 all_ports) fresh_world)) /\
  configurationIndex
    (self (snd (initialize (engine_with 1 all_ports) fresh_world))) = 1 /\
  configurationIndex
    (self (snd (initialize (engine_with 2 all_ports) fresh_world))) = 2.
Proof.
  destruct (configuration_index_is_not_observed
              (engine_with 1 all_ports) (engine_with 2 all_ports) fresh_world
              {["ConnectionName" := StringValue "events"]} 1 2
              [example_window; []; [event 3 4]]
              ltac:(reflexivity) ltac:(reflexivity) ltac:(reflexivity)
              ltac:(reflexivity) ltac:(reflexivity))
    as (_ & Hrun & Hci).
  split; [exact Hrun|].
  apply Hci. reflexivity.
Defined.

(** * Further properties of the step *)

(** ** [dispatchProcedure] as one write *)

Lemma record_channel_lt (pData : SIMCONNECT_RECV) (c : nat) :
  record_channel pData = Some c -> (c < 7)%nat.
Proof.
  unfold record_channel, spec_rule.
  destruct (dwID pData =? SIMCONNECT_RECV_ID_EVENT); [|discriminate].
  destruct (uEventID pData) as [|p|p];
    [ | do 4 (try destruct p as [p|p|]) | ];
    simpl; intros H; try discriminate; injection H as <-; lia.
Qed.

Lemma dispatch_as_write (pData : SIMCONNECT_RECV) (d : EventData) :
  dispatchProcedure pData d =
  match record_channel pData with
  | Some c => write_channel c (record_value c pData) d
  | None => d
  end.
Proof.
  unfold dispatchProcedure, record_channel, spec_rule.
  destruct (dwID pData =? SIMCONNECT_RECV_ID_EVENT); [|reflexivity].
  destruct (uEventID pData) as [|p|p];
    [ | do 4 (try destruct p as [p|p|]) | ]; reflexivity.
Qed.

Lemma ignored_no_channel (pData : SIMCONNECT_RECV) :
  ignored pData <-> record_channel pData = None.
Proof.
  unfold ignored, record_channel, spec_rule.
  destruct (Z.eqb_spec (dwID pData) SIMCONNECT_RECV_ID_EVENT) as [E|E].
  - destruct (uEventID pData) as [|p|p];
      [ | do 4 (try destruct p as [p|p|]) | ];
      simpl; split; intros H; try reflexivity; try discriminate;
      try (right; lia); destruct H as [H|H]; try congruence;
      exfalso; apply H; lia.
  - split; [reflexivity|]. intros _. left. exact E.
Qed.

Lemma write_channel_twice (c : nat) (v v' : Z) (d : EventData) :
  write_channel c v (write_channel c v' d) = write_channel c v d.
Proof. do 7 (destruct c as [|c]; [reflexivity|]). reflexivity. Qed.

Lemma write_channel_comm (c c' : nat) (v v' : Z) (d : EventData) :
  c <> c' ->
  write_channel c v (write_channel c' v' d) =
  write_channel c' v' (write_channel c v d).
Proof.
  intros Hne.
  do 7 (destruct c as [|c];
        [do 7 (destruct c' as [|c']; [reflexivity || congruence|]);
         reflexivity|]).
  reflexivity.
Qed.

(** X1. Dispatching the same record twice in a row leaves the accumulator
    as dispatching it once: firings are not counted. *)
Theorem dispatch_idempotent (pData : SIMCONNECT_RECV) (d : EventData) :
  dispatchProcedure pData (dispatchProcedure pData d) =
  dispatchProcedure pData d.
Proof.
  rewrite !dispatch_as_write.
  destruct (record_channel pData) as [c|]; [|reflexivity].
  apply write_channel_twice.
Qed.

(** X2. Two records can be dispatched in either order with the same
    result, unless both are events for the same value channel (2 or 3)
    carrying different payloads. *)
Theorem dispatch_commutes (pData1 pData2 : SIMCONNECT_RECV) (d : EventData) :
  (forall c : nat,
     c ∈ value_channels ->
     record_channel pData1 = Some c -> record_channel pData2 = Some c ->
     dwData pData1 = dwData pData2) ->
  dispatchProcedure pData1 (dispatchProcedure pData2 d) =
  dispatchProcedure pData2 (dispatchProcedure pData1 d).
Proof.
  intros Hsame. rewrite !dispatch_as_write.
  destruct (record_channel pData1) as [c1|] eqn:E1;
    destruct (record_channel pData2) as [c2|] eqn:E2; try reflexivity.
  destruct (decide (c1 = c2)) as [->|Hne].
  - rewrite !write_channel_twice. unfold record_value.
    destruct (bool_decide (c2 ∈ value_channels)) eqn:Hv; [|reflexivity].
    apply bool_decide_eq_true in Hv.
    rewrite (Hsame c2 Hv eq_refl eq_refl). reflexivity.
  - apply write_channel_comm. exact Hne.
Qed.

Lemma dispatch_commutes_witness :
  dispatchProcedure (event 2 3) (dispatchProcedure (event 7 0) baseline) =
  dispatchProcedure (event 7 0) (dispatchProcedure (event 2 3) baseline) /\
  dispatchProcedure (event 2 3) (dispatchProcedure (event 2 5) baseline) <>
  dispatchProcedure (event 2 5) (dispatchProcedure (event 2 3) baseline).
Proof.
  split.
  - apply (dispatch_commutes (event 2 3) (event 7 0) baseline).
    intros c _ H1 H2. vm_compute in H1, H2. congruence.
  - vm_compute. discriminate.
Defined.

(** ** The drain loop, again *)

Lemma drain_app (recs1 recs2 : list SIMCONNECT_RECV) (d : EventData) :
  drain (recs1 ++ recs2) d = drain recs2 (drain recs1 d).
Proof. unfold drain. apply fold_left_app. Qed.

(** X3. Whatever fuel the drain loop is given beyond the number of
    pending records, it stops with the queue empty and with the
    accumulator holding the effect of every pending record in order; it
    changes nothing else of the block or of the simulator. *)
Theorem processDispatch_loop_enough_fuel (fuel : nat) (w : World) :
  (length (pending (fs w)) < fuel)%nat ->
  processDispatch_loop fuel w =
  {| self := set_data (drain (pending (fs w)) (data (self w))) (self w);
     fs := set_pending [] (fs w) |}.
Proof.
  remember (pending (fs w)) as q eqn:Hq. revert fuel w Hq.
  induction q as [|pData q IH]; intros fuel [b sc] Hq Hfuel;
    simpl in Hq; (destruct fuel as [|fuel]; [simpl in Hfuel; lia|]).
  - simpl. unfold SimConnect_GetNextDispatch. rewrite <- Hq.
    destruct b, sc; simpl in *; subst; reflexivity.
  - simpl. unfold SimConnect_GetNextDispatch. rewrite <- Hq. simpl.
    rewrite IH by (simpl in *; (reflexivity || lia)).
    destruct b, sc; reflexivity.
Qed.

Lemma processDispatch_loop_enough_fuel_witness :
  pending (fs (processDispatch_loop 10 (arrive example_window fresh_world))) = [] /\
  channels
    (data (self (processDispatch_loop 10 (arrive example_window fresh_world)))) =
  [1; 0; 3; 0; 0; 0; 1].
Proof.
  rewrite (processDispatch_loop_enough_fuel 10 (arrive example_window fresh_world))
    by (simpl; lia).
  split; reflexivity.
Defined.

(** X4. Draining is incremental: draining one window, then a second one
    that arrived afterwards, leaves the world exactly as draining both
    at once. *)
Theorem processDispatch_incremental
  (recs1 recs2 : list SIMCONNECT_RECV) (w : World) :
  processDispatch (arrive recs2 (processDispatch (arrive recs1 w))) =
  processDispatch (arrive (recs1 ++ recs2) w).
Proof.
  rewrite !processDispatch_drains.
  destruct w as [b sc]; destruct b, sc. unfold arrive. simpl.
  rewrite app_assoc, (drain_app (_ ++ recs1) recs2). reflexivity.
Qed.

Lemma drain_ignored (recs : list SIMCONNECT_RECV) (d : EventData) :
  Forall ignored recs -> drain recs d = d.
Proof.
  induction 1 as [|pData recs Hi _ IH]; [reflexivity|].
  change (drain (pData :: recs) d) with (drain recs (dispatchProcedure pData d)).
  rewrite dispatch_as_write.
  apply ignored_no_channel in Hi. rewrite Hi. exact IH.
Qed.

(** X5. A queue holding only records of other kinds or events with an
    index outside 0..7 is consumed entirely and leaves the block as it
    was. *)
Theorem processDispatch_discards_noise (w : World) :
  Forall ignored (pending (fs w)) ->
  processDispatch w = set_fs (set_pending [] (fs w)) w.
Proof.
  intros H. rewrite processDispatch_drains, (drain_ignored _ _ H).
  destruct w as [b sc]; destruct b; reflexivity.
Qed.

Lemma processDispatch_discards_noise_witness :
  processDispatch (arrive [noise; event 8 1; event (-3) 2] fresh_world) =
  fresh_world.
Proof.
  rewrite (processDispatch_discards_noise
             (arrive [noise; event 8 1; event (-3) 2] fresh_world)).
  - reflexivity.
  - simpl. unfold ignored.
    constructor; [left; vm_compute; discriminate|].
    constructor; [right; simpl; lia|].
    constructor; [right; simpl; lia|].
    constructor.
Defined.

(** ** Channels do not interfere *)

Lemma write_channel_other (c0 c : nat) (v : Z) (d : EventData) :
  c0 <> c -> channels (write_channel c0 v d) !! c = channels d !! c.
Proof.
  intros Hne.
  do 7 (destruct c0 as [|c0];
        [do 7 (destruct c as [|c]; [reflexivity || congruence|]);
         reflexivity|]).
  reflexivity.
Qed.

Lemma write_channel_lookup (c0 c : nat) (v0 v : Z) (d : EventData) :
  channels (write_channel c0 v0 d) !! c = Some v ->
  v = v0 \/ channels d !! c = Some v.
Proof.
  do 7 (destruct c0 as [|c0];
        [do 7 (destruct c as [|c];
               [simpl; intros [= <-]; auto|]);
         simpl; auto|]).
  simpl. auto.
Qed.

Lemma dispatch_other_channel (c : nat) (pData : SIMCONNECT_RECV) (d : EventData) :
  maps_to c pData = false ->
  channels (dispatchProcedure pData d) !! c = channels d !! c.
Proof.
  intros H. rewrite dispatch_as_write.
  destruct (record_channel pData) as [c0|] eqn:E; [|reflexivity].
  apply write_channel_other. intros ->.
  unfold maps_to in H. rewrite E in H.
  apply bool_decide_eq_false in H. apply H. reflexivity.
Qed.

Lemma drain_channel_local (c : nat) (recs : list SIMCONNECT_RECV) :
  forall d1 d2 : EventData,
    channels d1 !! c = channels d2 !! c ->
    channels (drain recs d1) !! c = channels (drain recs d2) !! c.
Proof.
  induction recs as [|pData recs IH]; intros d1 d2 H; [exact H|].
  change (drain (pData :: recs) d1) with (drain recs (dispatchProcedure pData d1)).
  change (drain (pData :: recs) d2) with (drain recs (dispatchProcedure pData d2)).
  apply IH. rewrite !dispatch_channels, H. reflexivity.
Qed.

Lemma drain_channel_filter (c : nat) (recs : list SIMCONNECT_RECV) :
  forall d : EventData,
    channels (drain recs d) !! c =
    channels (drain (List.filter (maps_to c) recs) d) !! c.
Proof.
  induction recs as [|pData recs IH]; intros d; [reflexivity|].
  change (drain (pData :: recs) d) with (drain recs (dispatchProcedure pData d)).
  simpl. destruct (maps_to c pData) eqn:Hm.
  - change (drain (pData :: List.filter (maps_to c) recs) d)
      with (drain (List.filter (maps_to c) recs) (dispatchProcedure pData d)).
    apply IH.
  - rewrite IH. apply drain_channel_local.
    apply dispatch_other_channel. exact Hm.
Qed.

Lemma channels_ge (d : EventData) (c : nat) :
  (7 <= c)%nat -> channels d !! c = None.
Proof. intros H. apply lookup_ge_None. simpl. exact H. Qed.

Lemma channels_lt (d : EventData) (c : nat) :
  (c < 7)%nat -> exists v, channels d !! c = Some v.
Proof. intros H. apply lookup_lt_is_Some. simpl. exact H. Qed.

Lemma channel_kind (c : nat) :
  (c < 7)%nat -> c ∈ pulse_channels \/ c ∈ value_channels.
Proof.
  intros H. unfold pulse_channels, value_channels.
  do 7 (destruct c as [|c]; [set_solver|]). lia.
Qed.

(** X6. What a step shows on a channel depends only on the records of the
    window that map to that channel: dropping every other record from the
    window leaves the channel's output unchanged. *)
Theorem output_channel_independent
  (blockInfo : BlockInformation) (w : World)
  (recs : list SIMCONNECT_RECV) (c : nat) :
  pending (fs w) = [] ->
  outputPortSignals (snd (fst (output blockInfo (arrive recs w)))) !! c =
  outputPortSignals
    (snd (fst (output blockInfo (arrive (List.filter (maps_to c) recs) w)))) !! c.
Proof.
  intros Hq.
  destruct (decide (resolvable blockInfo)) as [Hr|Hr].
  - rewrite !output_success by assumption. simpl. rewrite Hq. simpl.
    destruct (decide (c < 7)%nat) as [Hc|Hc].
    + rewrite !written_lookup by assumption. apply drain_channel_filter.
    + rewrite !written_frame by lia. reflexivity.
  - rewrite !output_unresolvable by assumption. reflexivity.
Qed.

Lemma output_channel_independent_witness :
  outputPortSignals
    (snd (fst (output engine (arrive example_window fresh_world)))) !! 2%nat =
  outputPortSignals
    (snd (fst (output engine (arrive [event 2 3] fresh_world)))) !! 2%nat.
Proof.
  apply (output_channel_independent engine fresh_world example_window 2%nat).
  reflexivity.
Defined.

(** ** The order of the records in a window *)

Lemma existsb_Permutation {A : Type} (f : A -> bool) (l l' : list A) :
  l ≡ₚ l' -> existsb f l = existsb f l'.
Proof.
  induction 1 as [|x l l' _ IH|x y l|l l' l'' _ IH1 _ IH2]; simpl.
  - reflexivity.
  - rewrite IH. reflexivity.
  - destruct (f x), (f y); reflexivity.
  - rewrite IH1. exact IH2.
Qed.

Lemma drain_Permutation (recs recs' : list SIMCONNECT_RECV) (d : EventData) :
  recs ≡ₚ recs' ->
  (forall c : nat,
     c ∈ value_channels ->
     List.filter (maps_to c) recs = List.filter (maps_to c) recs') ->
  drain recs d = drain recs' d.
Proof.
  intros Hp Hv. apply channels_inj. apply list_eq. intros c.
  destruct (decide (c < 7)%nat) as [Hc|Hc];
    [|rewrite !channels_ge by lia; reflexivity].
  destruct (channel_kind c Hc) as [Hk|Hk].
  - destruct (channels_lt d c Hc) as [v Hd].
    rewrite (drain_pulse c recs Hk d v Hd), (drain_pulse c recs' Hk d v Hd).
    rewrite (existsb_Permutation _ _ _ Hp). reflexivity.
  - rewrite (drain_channel_filter c recs), (drain_channel_filter c recs').
    rewrite (Hv c Hk). reflexivity.
Qed.

(** X7. When the ports resolve, a step gives the same outputs and leaves
    the same world for two windows that hold the same records in a
    different order, provided the records of each value channel (2 and 3)
    come in the same order in both. *)
Theorem output_window_order
  (blockInfo : BlockInformation) (w : World)
  (recs recs' : list SIMCONNECT_RECV) :
  resolvable blockInfo ->
  recs ≡ₚ recs' ->
  (forall c : nat,
     c ∈ value_channels ->
     List.filter (maps_to c) recs = List.filter (maps_to c) recs') ->
  output blockInfo (arrive recs w) = output blockInfo (arrive recs' w).
Proof.
  intros Hr Hp Hv. rewrite !output_success by assumption.
  unfold arrive. simpl.
  rewrite !drain_app, (drain_Permutation recs recs' _ Hp Hv). reflexivity.
Qed.

Lemma output_window_order_witness :
  output engine (arrive [event 0 0; event 2 3; event 7 0; event 2 5] fresh_world) =
  output engine (arrive [event 2 3; event 7 0; event 2 5; event 0 0] fresh_world).
Proof.
  apply (output_window_order engine fresh_world).
  - exact engine_resolvable.
  - apply (Permutation_cons_append [event 2 3; event 7 0; event 2 5] (event 0 0)).
  - intros c Hc. unfold value_channels in Hc. set_unfold.
    destruct Hc as [->|[->|[]]]; reflexivity.
Defined.

(** ** Ports declared and ports written *)

Lemma declared_ports : map port_index outputPortInfo = seq 0 7.
Proof. reflexivity. Qed.

Lemma resolvable_declared (blockInfo : BlockInformation) :
  resolvable blockInfo <->
  forall p : PortInfo,
    p ∈ outputPortInfo -> is_Some (outputPortSignals blockInfo !! port_index p).
Proof.
  unfold resolvable. rewrite <- declared_ports, Forall_forall. split.
  - intros H p Hp. apply H. apply list_elem_of_fmap. exists p. auto.
  - intros H k Hk. apply list_elem_of_fmap in Hk as (p & -> & Hp). auto.
Qed.

(** X8. [output] and [configureSizeAndPorts] agree on the ports: a step
    succeeds exactly when every output port declared by
    [configureSizeAndPorts] resolves; it then writes every declared port;
    and it never changes a port that was not declared. *)
Theorem output_uses_declared_ports (blockInfo : BlockInformation) (w : World) :
  (fst (fst (output blockInfo w)) = true <->
   forall p : PortInfo,
     p ∈ outputPortInfo ->
     is_Some (outputPortSignals blockInfo !! port_index p)) /\
  (forall k : nat,
     k ∉ map port_index outputPortInfo ->
     outputPortSignals (snd (fst (output blockInfo w))) !! k =
     outputPortSignals blockInfo !! k) /\
  (fst (fst (output blockInfo w)) = true ->
   forall (p : PortInfo),
     p ∈ outputPortInfo ->
     outputPortSignals (snd (fst (output blockInfo w))) !! port_index p =
     channels (drain (pending (fs w)) (data (self w))) !! port_index p).
Proof.
  rewrite <- resolvable_declared.
  destruct (decide (resolvable blockInfo)) as [Hr|Hr].
  - rewrite output_success by assumption.
    cbn [fst snd outputPortSignals set_outputPortSignals].
    split; [split; auto|]. split.
    + intros k Hk. apply written_frame.
      rewrite declared_ports in Hk.
      destruct (decide (7 <= k)%nat) as [|Hlt]; [assumption|].
      exfalso. apply Hk. apply elem_of_seq. lia.
    + intros _ p Hp. apply written_lookup.
      assert (Hin : port_index p ∈ map port_index outputPortInfo)
        by (apply list_elem_of_fmap; exists p; auto).
      rewrite declared_ports in Hin. apply elem_of_seq in Hin. lia.
  - rewrite output_unresolvable by assumption. cbn [fst snd].
    split; [split; [discriminate|contradiction]|].
    split; [reflexivity|discriminate].
Qed.

(** ** Runs of any length *)

Lemma run_from_idle (windows : list (list SIMCONNECT_RECV)) :
  forall (blockInfo : BlockInformation) (w : World),
    resolvable blockInfo ->
    data (self w) = baseline ->
    pending (fs w) = [] ->
    forall (k : nat) (recs : list SIMCONNECT_RECV),
      windows !! k = Some recs ->
      exists ports : gmap nat Z,
        run windows blockInfo w !! k = Some (true, ports) /\
        forall c : nat, (c < 7)%nat ->
          ports !! c = channels (drain recs baseline) !! c.
Proof.
  induction windows as [|recs0 rest IH]; intros blockInfo w Hr Hd Hq k recs Hk;
    [discriminate|].
  change (run (recs0 :: rest) blockInfo w)
    with (let '(ok, blockInfo', w') := output blockInfo (arrive recs0 w) in
          (ok, outputPortSignals blockInfo') :: run rest blockInfo' w').
  rewrite output_success by assumption.
  destruct k as [|k].
  - injection Hk as ->. eexists. split; [reflexivity|].
    intros c Hc. cbn [outputPortSignals set_outputPortSignals].
    rewrite written_lookup by assumption.
    unfold arrive. simpl. rewrite Hq, Hd. reflexivity.
  - apply IH; try assumption; try reflexivity.
    apply written_resolvable.
Qed.

(** X9. In a run of any number of steps with resolvable ports, started
    with nothing pending, every step succeeds and shows on ports 0-6 the
    effect of its own window on a baseline accumulator: no step sees
    anything of the windows before it. *)
Theorem run_steps_show_their_own_window
  (windows : list (list SIMCONNECT_RECV)) (blockInfo : BlockInformation)
  (w : World) (k : nat) (recs : list SIMCONNECT_RECV) :
  reachable w ->
  pending (fs w) = [] ->
  resolvable blockInfo ->
  windows !! k = Some recs ->
  exists ports : gmap nat Z,
    run windows blockInfo w !! k = Some (true, ports) /\
    forall c : nat, (c < 7)%nat ->
      ports !! c = channels (drain recs baseline) !! c.
Proof.
  intros Hw Hq Hr Hk.
  exact (run_from_idle windows blockInfo w Hr (reachable_baseline w Hw) Hq k recs Hk).
Qed.

Lemma run_steps_show_their_own_window_witness :
  exists ports : gmap nat Z,
    run [example_window; [event 0 0]; []; [event 3 4; event 1 0]] engine
      fresh_world !! 3%nat = Some (true, ports) /\
    ports !! 0%nat = Some 0 /\ ports !! 1%nat = Some 1 /\ ports !! 3%nat = Some 4.
Proof.
  destruct (run_steps_show_their_own_window
              [example_window; [event 0 0]; []; [event 3 4; event 1 0]]
              engine fresh_world 3 [event 3 4; event 1 0])
    as (ports & Hrun & Hch).
  - apply (reach_start fresh_block willing_sim). reflexivity.
  - reflexivity.
  - exact engine_resolvable.
  - reflexivity.
  - exists ports. split; [exact Hrun|].
    rewrite !Hch by lia. repeat split; reflexivity.
Defined.

(** ** The range of the outputs *)

Lemma dword_one : dword 1.
Proof. unfold dword. lia. Qed.

Lemma dword_zero : dword 0.
Proof. unfold dword. lia. Qed.

Lemma drain_dword (recs : list SIMCONNECT_RECV) :
  Forall (fun pData => dword (dwData pData)) recs ->
  forall d : EventData,
    Forall dword (channels d) -> Forall dword (channels (drain recs d)).
Proof.
  induction 1 as [|pData recs Hp _ IH]; intros d Hd; [exact Hd|].
  change (drain (pData :: recs) d) with (drain recs (dispatchProcedure pData d)).
  apply IH. rewrite dispatch_as_write.
  destruct (record_channel pData) as [c0|]; [|exact Hd].
  apply Forall_lookup. intros c v Hv.
  apply write_channel_lookup in Hv as [->|Hv].
  - unfold record_value. destruct (bool_decide _); [exact Hp|exact dword_one].
  - rewrite Forall_lookup in Hd. exact (Hd c v Hv).
Qed.

(** X10. If every pending record carries a payload in the range of a
    DWORD, every value a successful step writes to ports 0-6 lies in that
    range (so converting it to a double loses nothing). *)
Theorem output_values_in_dword_range
  (blockInfo : BlockInformation) (w : World) (c : nat) :
  reachable w ->
  resolvable blockInfo ->
  Forall (fun pData => dword (dwData pData)) (pending (fs w)) ->
  (c < 7)%nat ->
  exists v : Z,
    outputPortSignals (snd (fst (output blockInfo w))) !! c = Some v /\ dword v.
Proof.
  intros Hw Hr Hp Hc.
  rewrite output_success by assumption.
  cbn [fst snd outputPortSignals set_outputPortSignals].
  rewrite written_lookup by assumption.
  destruct (channels_lt (drain (pending (fs w)) (data (self w))) c Hc) as [v Hv].
  exists v. split; [exact Hv|].
  assert (Hall : Forall dword (channels (drain (pending (fs w)) (data (self w))))).
  { apply drain_dword; [exact Hp|].
    rewrite (reachable_baseline w Hw). simpl.
    repeat (constructor; [exact dword_zero|]). constructor. }
  rewrite Forall_lookup in Hall. exact (Hall c v Hv).
Qed.

Lemma output_values_in_dword_range_witness :
  exists v : Z,
    outputPortSignals
      (snd (fst (output engine
                   (arrive [event 2 4294967295; event 0 7] fresh_world))))
      !! 2%nat = Some v /\ dword v.
Proof.
  apply (output_values_in_dword_range engine
           (arrive [event 2 4294967295; event 0 7] fresh_world) 2%nat).
  - apply reach_arrive. apply (reach_start fresh_block willing_sim). reflexivity.
  - exact engine_resolvable.
  - simpl. unfold dword.
    constructor; [simpl; lia|]. constructor; [simpl; lia|]. constructor.
  - lia.
Defined.

(** X11. Between the calls of the engine the accumulator is idle: in every
    world reached from a block with a baseline accumulator by any
    sequence of [initialize], [output] (successful or not), [terminate]
    and arrivals of records, all seven fields are 0. *)
Theorem accumulator_idle_between_steps (w : World) :
  reachable w -> channels (data (self w)) = [0; 0; 0; 0; 0; 0; 0].
Proof. intros Hw. rewrite (reachable_baseline w Hw). reflexivity. Qed.

Lemma accumulator_idle_between_steps_witness :
  channels
    (data (self (snd (output engine_without_port3
                        (snd (output engine
                                (arrive example_window
                                   (snd (initialize engine fresh_world))))))))) =
  [0; 0; 0; 0; 0; 0; 0].
Proof.
  apply accumulator_idle_between_steps.
  apply reach_output, reach_output, reach_arrive, reach_initialize.
  apply (reach_start fresh_block willing_sim). reflexivity.
Defined.

(** * Further properties of initialization and teardown *)

Lemma log_append_inj (l l' : list (Call * HRESULT)) (w : World) :
  log_append l w = log_append l' w -> l = l'.
Proof.
  intros H. apply (f_equal (fun w => calls (fs w))) in H. simpl in H.
  exact (app_inv_head _ _ _ H).
Qed.

Lemma addEvent_detail (eventId : Z) (eventName : string) (shouldMask : bool)
  (w : World) :
  exists l : list (Call * HRESULT),
    addEvent eventId eventName shouldMask w =
      (forallb succeeded l, log_append l w) /\
    forallb is_registration l = true /\
    (accepts_all (fs w) -> forallb succeeded l = true).
Proof.
  unfold addEvent, bind, SimConnect_MapClientEventToSimEvent,
    SimConnect_AddClientEventToNotificationGroup, SimConnect_call, ret.
  set (c1 := MapClientEventToSimEvent eventId eventName).
  set (hr1 := respond (fs w) (calls (fs w)) c1).
  destruct (FAILED hr1) eqn:F1.
  - exists [(c1, hr1)]. unfold succeeded. simpl. rewrite F1.
    split; [reflexivity|]. split; [reflexivity|].
    intros Hall. specialize (Hall (calls (fs w)) c1). fold hr1 in Hall. congruence.
  - set (w1 := log_append [(c1, hr1)] w).
    set (c2 := AddClientEventToNotificationGroup 0 eventId
                 (if shouldMask then 1 else 0)).
    set (hr2 := respond (fs w1) (calls (fs w1)) c2).
    exists [(c1, hr1); (c2, hr2)]. unfold succeeded. simpl.
    rewrite F1. subst w1. rewrite log_append_app. simpl.
    split; [destruct (FAILED hr2); reflexivity|]. split; [reflexivity|].
    intros Hall. unfold hr2. simpl. rewrite Hall. reflexivity.
Qed.

Lemma registerList_detail (bs : list (Z * string * bool)) :
  forall (boolResult : bool) (w : World),
  exists l : list (Call * HRESULT),
    registerList bs boolResult w =
      (boolResult && forallb succeeded l, log_append l w) /\
    forallb is_registration l = true /\
    (accepts_all (fs w) -> forallb succeeded l = true).
Proof.
  induction bs as [|[[eventId eventName] shouldMask] bs IH]; intros boolResult w.
  - exists []. simpl. unfold ret. rewrite andb_true_r, log_append_nil. auto.
  - destruct (addEvent_detail eventId eventName shouldMask w)
      as (l1 & E1 & R1 & A1).
    destruct (IH (boolResult && forallb succeeded l1) (log_append l1 w))
      as (l2 & E2 & R2 & A2).
    exists (l1 ++ l2).
    change (registerList ((eventId, eventName, shouldMask) :: bs) boolResult w)
      with (bind (addEvent eventId eventName shouldMask)
              (fun r => registerList bs (boolResult && r)) w).
    unfold bind. rewrite E1, E2, log_append_app, !forallb_app, andb_assoc.
    split; [reflexivity|]. split; [rewrite R1, R2; reflexivity|].
    intros Hall. rewrite A1 by exact Hall. rewrite A2 by exact Hall. reflexivity.
Qed.

Lemma length_registrations (l : list (Call * HRESULT)) :
  forallb is_registration l = true ->
  length l = (length (mapped_events l) + length (attached l))%nat.
Proof.
  induction l as [|[c hr] l IH]; [reflexivity|].
  simpl. intros H. apply andb_true_iff in H as [Hc Hl].
  unfold mapped_events, attached in *. simpl.
  destruct c; try discriminate; simpl; rewrite (IH Hl); lia.
Qed.

Lemma length_mapped_ok (l : list (Call * HRESULT)) :
  (length (mapped_ok l) <= length (mapped_events l))%nat.
Proof.
  induction l as [|[c hr] l IH]; [reflexivity|].
  unfold mapped_events, mapped_ok in *. simpl.
  destruct c; simpl; try exact IH.
  destruct (FAILED hr); simpl.
  - apply Nat.le_le_succ_r. exact IH.
  - apply le_n_S. exact IH.
Qed.

(** The part of [initialize] that talks to the simulator, in full. *)
Lemma connect_and_register_detail (cn : string) (w : World) :
  let m :=
    (do connected <- SimConnect_Open cn;
     if FAILED connected then ret false else
     do boolResult <- registerEvents;
     do result <- SimConnect_SetNotificationGroupPriority 0
                    SIMCONNECT_GROUP_PRIORITY_HIGHEST_MASKABLE;
     if FAILED result || negb boolResult then ret false else
     ret true) in
  let hr := respond (fs w) (calls (fs w)) (Open cn) in
  forall (r : bool) (w' : World),
    m w = (r, w') ->
    exists rest : list (Call * HRESULT),
      fs w' = set_calls (calls (fs w) ++ (Open cn, hr) :: rest) (fs w) /\
      (FAILED hr = true -> rest = [] /\ self w' = self w /\ r = false) /\
      (FAILED hr = false ->
       self w' = set_simConnectHandle (Some (handle (fs w))) (self w) /\
       exists (lr : list (Call * HRESULT)) (hp : HRESULT),
         rest = lr ++ [(SetNotificationGroupPriority 0
                          SIMCONNECT_GROUP_PRIORITY_HIGHEST_MASKABLE, hp)] /\
         forallb is_registration lr = true /\
         mapped_events lr = map fst bindings /\
         attached lr =
           map (fun id => (0, id, if masked id then 1 else 0)) (mapped_ok lr) /\
         r = forallb succeeded lr && negb (FAILED hp) /\
         (accepts_all (fs w) -> r = true)).
Proof.
  intros m hr0 r w' E. subst m.
  unfold bind at 1 in E. unfold SimConnect_Open, bind at 1, SimConnect_call in E.
  set (hr := respond (fs w) (calls (fs w)) (Open cn)) in E.
  change hr0 with hr. clear hr0.
  rewrite failed_succeeded in E.
  destruct (FAILED hr) eqn:F; cbn [negb] in E;
    [unfold ret at 1 in E|]; cbn beta iota in E; rewrite F in E.
  - unfold ret in E. injection E as <- <-.
    exists []. split; [reflexivity|]. split; [auto|discriminate].
  - set (w1 := set_self _ _) in E.
    assert (Hfs : fs w1 = set_calls (calls (fs w) ++ [(Open cn, hr)]) (fs w))
      by reflexivity.
    assert (Hs : self w1 = set_simConnectHandle (Some (handle (fs w))) (self w))
      by reflexivity.
    assert (Hacc : accepts_all (fs w) -> accepts_all (fs w1))
      by (intros H; exact H).
    clearbody w1.
    rewrite registerEvents_unfold in E. unfold bind in E.
    destruct (registerList_spec masked bindings bindings_masked true w1)
      as (lr & E' & Mp & At).
    destruct (registerList_detail bindings true w1) as (lr' & E'' & Rg & Ok).
    assert (lr' = lr) as ->.
    { rewrite E' in E''.
      assert (H : log_append lr w1 = log_append lr' w1) by congruence.
      symmetry. exact (log_append_inj _ _ _ H). }
    rewrite E' in E.
    unfold SimConnect_SetNotificationGroupPriority, SimConnect_call in E.
    set (prio := SetNotificationGroupPriority 0
                   SIMCONNECT_GROUP_PRIORITY_HIGHEST_MASKABLE) in *.
    set (hp := respond _ _ prio) in E.
    rewrite verdict_run, log_append_app in E. injection E as <- <-.
    exists (lr ++ [(prio, hp)]).
    split; [|split; [discriminate|]].
    + rewrite log_append_fs, Hfs. unfold set_calls; simpl.
      rewrite <- app_assoc. reflexivity.
    + intros _. split; [exact Hs|].
      exists lr, hp. repeat split; try assumption.
      * destruct (FAILED hp), (forallb succeeded lr); reflexivity.
      * intros Hall. rewrite (Ok (Hacc Hall)).
        assert (Hp : FAILED hp = false) by (unfold hp; simpl; apply Hacc, Hall).
        rewrite Hp. reflexivity.
Qed.

Lemma initialize_prologue_none (blockInfo : BlockInformation) (w : World) :
  prologue blockInfo = None ->
  fst (initialize blockInfo w) = false /\
  fs (snd (initialize blockInfo w)) = fs w /\
  data (self (snd (initialize blockInfo w))) = data (self w) /\
  simConnectHandle (self (snd (initialize blockInfo w))) =
    simConnectHandle (self w).
Proof.
  intros H. destruct (initialize blockInfo w) as [r w'] eqn:E. cbn [fst snd].
  unfold prologue, parameterMetadata in H.
  unfold initialize, parseParameters in E.
  unfold bind at 1 2, modify_self, ret at 1 2 3 4 in E.
  destruct (Block_initialize blockInfo); cbn [negb andb] in E, H;
    [|injection E as <- <-; auto].
  destruct (forallb _ _);
    [|injection E as <- <-; auto].
  destruct (parsedParameters blockInfo) as [p|];
    [|injection E as <- <-; auto].
  cbn [negb self set_self m_parameters set_m_parameters set_configurationIndex]
    in E.
  destruct (getParameter_int p "ConfigurationIndex") as [ci|];
    [|injection E as <- <-; auto].
  destruct (getParameter_string p "ConnectionName") as [cn|];
    [|injection E as <- <-; auto].
  discriminate.
Qed.

Lemma initialize_prologue_some (blockInfo : BlockInformation) (w : World)
  (p : gmap string ParameterValue) (ci : Z) (cn : string) :
  prologue blockInfo = Some (p, ci, cn) ->
  initialize blockInfo w =
  (do connected <- SimConnect_Open cn;
   if FAILED connected then ret false else
   do boolResult <- registerEvents;
   do result <- SimConnect_SetNotificationGroupPriority 0
                  SIMCONNECT_GROUP_PRIORITY_HIGHEST_MASKABLE;
   if FAILED result || negb boolResult then ret false else
   ret true)
    (set_self
       (set_connectionName cn
          (set_configurationIndex ci (set_m_parameters p (self w)))) w).
Proof.
  unfold prologue, parameterMetadata, initialize, parseParameters.
  unfold bind at 1 2, modify_self, ret at 1 2 3 4.
  destruct (Block_initialize blockInfo); cbn [negb andb]; [|discriminate].
  destruct (forallb _ _); [|discriminate].
  destruct (parsedParameters blockInfo) as [p'|]; [|discriminate].
  cbn [negb self set_self m_parameters set_m_parameters set_configurationIndex].
  destruct (getParameter_int p' "ConfigurationIndex") as [ci'|]; [|discriminate].
  destruct (getParameter_string p' "ConnectionName") as [cn'|]; [|discriminate].
  intros [= -> -> ->]. destruct w as [b sc]; destruct b. reflexivity.
Qed.

Lemma initialize_detail (blockInfo : BlockInformation) (w : World)
  (p : gmap string ParameterValue) (ci : Z) (cn : string) :
  prologue blockInfo = Some (p, ci, cn) ->
  let hr := respond (fs w) (calls (fs w)) (Open cn) in
  let b0 := set_connectionName cn
              (set_configurationIndex ci (set_m_parameters p (self w))) in
  let r := fst (initialize blockInfo w) in
  let w' := snd (initialize blockInfo w) in
  exists rest : list (Call * HRESULT),
    new_calls w w' = (Open cn, hr) :: rest /\
    pending (fs w') = pending (fs w) /\
    (FAILED hr = true -> rest = [] /\ self w' = b0 /\ r = false) /\
    (FAILED hr = false ->
     self w' = set_simConnectHandle (Some (handle (fs w))) b0 /\
     exists (lr : list (Call * HRESULT)) (hp : HRESULT),
       rest = lr ++ [(SetNotificationGroupPriority 0
                        SIMCONNECT_GROUP_PRIORITY_HIGHEST_MASKABLE, hp)] /\
       forallb is_registration lr = true /\
       mapped_events lr = map fst bindings /\
       attached lr =
         map (fun id => (0, id, if masked id then 1 else 0)) (mapped_ok lr) /\
       r = forallb succeeded lr && negb (FAILED hp) /\
       (accepts_all (fs w) -> r = true)).
Proof.
  intros Hp hr b0 r w'. subst r w'.
  rewrite (initialize_prologue_some blockInfo w p ci cn Hp).
  match goal with
  | |- context [ bind ?m ?k ?w0 ] =>
    destruct (bind m k w0) as [r w'] eqn:E;
    destruct (connect_and_register_detail cn w0 r w' E)
      as (rest & Hfs & Hfail & Hok)
  end.
  cbn [fst snd]. exists rest.
  split; [apply new_calls_append; exact Hfs|].
  split; [rewrite Hfs; reflexivity|].
  split; [exact Hfail|exact Hok].
Qed.

(** X12. When the base class does not initialize, a parameter description
    is rejected, the parameters do not parse, or ConfigurationIndex (an
    integer) or ConnectionName (a string) is missing, [initialize] returns
    false without sending anything to the simulator: no connection is
    opened, the handle, the pending records and the accumulator are as
    before. *)
Theorem initialize_without_prerequisites_sends_nothing
  (blockInfo : BlockInformation) (w : World) :
  prologue blockInfo = None ->
  fst (initialize blockInfo w) = false /\
  new_calls w (snd (initialize blockInfo w)) = [] /\
  pending (fs (snd (initialize blockInfo w))) = pending (fs w) /\
  data (self (snd (initialize blockInfo w))) = data (self w) /\
  simConnectHandle (self (snd (initialize blockInfo w))) =
    simConnectHandle (self w).
Proof.
  intros H.
  destruct (initialize_prologue_none blockInfo w H) as (Hr & Hfs & Hd & Hh).
  split; [exact Hr|]. split.
  - unfold new_calls. rewrite Hfs. apply drop_all.
  - rewrite Hfs. auto.
Qed.

Lemma initialize_without_prerequisites_sends_nothing_witness :
  (fst (initialize nameless_engine fresh_world) = false /\
   new_calls fresh_world (snd (initialize nameless_engine fresh_world)) = []) /\
  (fst (initialize fussy_engine fresh_world) = false /\
   new_calls fresh_world (snd (initialize fussy_engine fresh_world)) = []).
Proof.
  split.
  - destruct (initialize_without_prerequisites_sends_nothing
                nameless_engine fresh_world ltac:(reflexivity))
      as (H1 & H2 & _).
    split; assumption.
  - destruct (initialize_without_prerequisites_sends_nothing
                fussy_engine fresh_world ltac:(reflexivity))
      as (H1 & H2 & _).
    split; assumption.
Defined.

(** X13. When the engine provides what [initialize] needs, the first thing
    sent to the simulator is the [Open] of the connection named by the
    ConnectionName parameter, and the block keeps the parsed parameters,
    the ConfigurationIndex and the ConnectionName in its members - whether
    or not the rest of the initialization succeeds. *)
Theorem initialize_opens_configured_connection
  (blockInfo : BlockInformation) (w : World)
  (p : gmap string ParameterValue) (ci : Z) (cn : string) :
  prologue blockInfo = Some (p, ci, cn) ->
  let w' := snd (initialize blockInfo w) in
  head (new_calls w w') = Some (Open cn, respond (fs w) (calls (fs w)) (Open cn)) /\
  m_parameters (self w') = p /\
  configurationIndex (self w') = ci /\
  connectionName (self w') = cn.
Proof.
  intros Hp w'. subst w'.
  destruct (initialize_detail blockInfo w p ci cn Hp)
    as (rest & Hcalls & _ & Hfail & Hok).
  split; [rewrite Hcalls; reflexivity|].
  destruct (FAILED (respond (fs w) (calls (fs w)) (Open cn))) eqn:F.
  - destruct (Hfail eq_refl) as (_ & -> & _). auto.
  - destruct (Hok eq_refl) as (-> & _). auto.
Qed.

Lemma initialize_opens_configured_connection_witness :
  head (new_calls closed_world (snd (initialize engine closed_world))) =
    Some (Open "events", E_FAIL) /\
  connectionName (self (snd (initialize engine closed_world))) = "events".
Proof.
  destruct (initialize_opens_configured_connection engine closed_world
              (<["ConfigurationIndex" := IntValue 1]>
                 {["ConnectionName" := StringValue "events"]}) 1 "events"
              ltac:(reflexivity))
    as (H1 & _ & _ & H4).
  split; assumption.
Defined.

(** X14. When the simulator refuses the [Open], [initialize] returns false
    having sent nothing else: no event is registered, no priority is set,
    the handle is left as it was and the pending records stay queued. *)
Theorem initialize_refused_open_registers_nothing
  (blockInfo : BlockInformation) (w : World)
  (p : gmap string ParameterValue) (ci : Z) (cn : string) :
  prologue blockInfo = Some (p, ci, cn) ->
  FAILED (respond (fs w) (calls (fs w)) (Open cn)) = true ->
  let w' := snd (initialize blockInfo w) in
  fst (initialize blockInfo w) = false /\
  new_calls w w' = [(Open cn, respond (fs w) (calls (fs w)) (Open cn))] /\
  simConnectHandle (self w') = simConnectHandle (self w) /\
  pending (fs w') = pending (fs w).
Proof.
  intros Hp HF w'. subst w'.
  destruct (initialize_detail blockInfo w p ci cn Hp)
    as (rest & Hcalls & Hq & Hfail & _).
  destruct (Hfail HF) as (-> & Hs & Hr).
  split; [exact Hr|]. split; [exact Hcalls|]. split; [|exact Hq].
  rewrite Hs. reflexivity.
Qed.

Lemma initialize_refused_open_registers_nothing_witness :
  fst (initialize engine closed_world) = false /\
  new_calls closed_world (snd (initialize engine closed_world)) =
    [(Open "events", E_FAIL)] /\
  simConnectHandle (self (snd (initialize engine closed_world))) = None /\
  pending (fs (snd (initialize engine closed_world))) = [event 0 0].
Proof.
  apply (initialize_refused_open_registers_nothing engine closed_world
           (<["ConfigurationIndex" := IntValue 1]>
              {["ConnectionName" := StringValue "events"]}) 1 "events");
    reflexivity.
Defined.

(** X15. Once the [Open] is accepted, [initialize] keeps the handle and
    goes through the whole registration whatever the single calls return:
    between 8 and 16 registration calls follow, then the priority call for
    group 0 at the highest maskable tier as the last call.  No [Close] is
    sent and the handle stays set even when the result is false. *)
Theorem initialize_sets_priority_last
  (blockInfo : BlockInformation) (w : World)
  (p : gmap string ParameterValue) (ci : Z) (cn : string) :
  prologue blockInfo = Some (p, ci, cn) ->
  FAILED (respond (fs w) (calls (fs w)) (Open cn)) = false ->
  let w' := snd (initialize blockInfo w) in
  simConnectHandle (self w') = Some (handle (fs w)) /\
  exists (lr : list (Call * HRESULT)) (hp : HRESULT),
    new_calls w w' =
      (Open cn, respond (fs w) (calls (fs w)) (Open cn)) :: lr ++
      [(SetNotificationGroupPriority 0 10000000, hp)] /\
    forallb is_registration lr = true /\
    (8 <= length lr <= 16)%nat /\
    fst (initialize blockInfo w) = forallb succeeded lr && negb (FAILED hp).
Proof.
  intros Hp HF w'. subst w'.
  destruct (initialize_detail blockInfo w p ci cn Hp)
    as (rest & Hcalls & _ & _ & Hok).
  destruct (Hok HF) as (Hs & lr & hp & -> & Hreg & Hm & Ha & Hr & _).
  split; [rewrite Hs; reflexivity|].
  exists lr, hp. split; [exact Hcalls|]. split; [exact Hreg|].
  split; [|exact Hr].
  rewrite (length_registrations lr Hreg), Ha, length_map.
  pose proof (length_mapped_ok lr) as Hle. rewrite Hm in *.
  change (length (map fst bindings)) with 8%nat in *. lia.
Qed.

Lemma initialize_sets_priority_last_witness :
  fst (initialize engine picky_world) = false /\
  simConnectHandle (self (snd (initialize engine picky_world))) = Some 1 /\
  last (new_calls picky_world (snd (initialize engine picky_world))) =
    Some (SetNotificationGroupPriority 0 10000000, S_OK) /\
  length (new_calls picky_world (snd (initialize engine picky_world))) = 17%nat.
Proof.
  destruct (initialize_sets_priority_last engine picky_world
              (<["ConfigurationIndex" := IntValue 1]>
                 {["ConnectionName" := StringValue "events"]}) 1 "events"
              ltac:(reflexivity) ltac:(reflexivity))
    as (Hh & lr & hp & Hcalls & _).
  split; [reflexivity|]. split; [exact Hh|].
  split; reflexivity.
Defined.

Lemma all_registered (lr : list (Call * HRESULT)) :
  forallb is_registration lr = true ->
  mapped_events lr = map fst bindings ->
  attached lr = map (fun id => (0, id, if masked id then 1 else 0)) (mapped_ok lr) ->
  forallb succeeded lr = true ->
  length lr = 16%nat.
Proof.
  intros Hreg Hm Ha Hs.
  rewrite (length_registrations lr Hreg), Ha, length_map.
  rewrite (mapped_ok_all lr Hs), length_map, Hm. reflexivity.
Qed.

(** X16. With an engine that provides what [initialize] needs and a
    simulator that accepts every call, [initialize] returns true after
    exactly 18 calls (the [Open], eight name mappings, eight group
    attachments, the priority call), with the handle set. *)
Theorem initialize_succeeds_with_accepting_simulator
  (blockInfo : BlockInformation) (w : World)
  (p : gmap string ParameterValue) (ci : Z) (cn : string) :
  prologue blockInfo = Some (p, ci, cn) ->
  accepts_all (fs w) ->
  let w' := snd (initialize blockInfo w) in
  fst (initialize blockInfo w) = true /\
  length (new_calls w w') = 18%nat /\
  simConnectHandle (self w') = Some (handle (fs w)).
Proof.
  intros Hp Hall w'. subst w'.
  destruct (initialize_detail blockInfo w p ci cn Hp)
    as (rest & Hcalls & _ & _ & Hok).
  destruct (Hok (Hall _ _)) as (Hs & lr & hp & -> & Hreg & Hm & Ha & Hr & Htrue).
  specialize (Htrue Hall).
  split; [exact Htrue|]. split; [|rewrite Hs; reflexivity].
  rewrite Htrue in Hr. symmetry in Hr. apply andb_true_iff in Hr as [Hsucc _].
  rewrite Hcalls. simpl. rewrite length_app.
  rewrite (all_registered lr Hreg Hm Ha Hsucc). reflexivity.
Qed.

Lemma initialize_succeeds_with_accepting_simulator_witness :
  fst (initialize engine fresh_world) = true /\
  length (new_calls fresh_world (snd (initialize engine fresh_world))) = 18%nat /\
  simConnectHandle (self (snd (initialize engine fresh_world))) = Some 1.
Proof.
  apply (initialize_succeeds_with_accepting_simulator engine fresh_world
           (<["ConfigurationIndex" := IntValue 1]>
              {["ConnectionName" := StringValue "events"]}) 1 "events").
  - reflexivity.
  - intros history c. reflexivity.
Defined.

(** X17. If [initialize] returns true, the engine provided everything it
    needs, exactly 18 calls were sent to the simulator, every one of them
    succeeded, and the handle is set. *)
Theorem initialize_success_is_complete
  (blockInfo : BlockInformation) (w : World) :
  fst (initialize blockInfo w) = true ->
  let w' := snd (initialize blockInfo w) in
  prologue blockInfo <> None /\
  length (new_calls w w') = 18%nat /\
  forallb succeeded (new_calls w w') = true /\
  simConnectHandle (self w') = Some (handle (fs w)).
Proof.
  intros Htrue w'. subst w'.
  destruct (prologue blockInfo) as [[[p ci] cn]|] eqn:Hp.
  - destruct (initialize_detail blockInfo w p ci cn Hp)
      as (rest & Hcalls & _ & Hfail & Hok).
    destruct (FAILED (respond (fs w) (calls (fs w)) (Open cn))) eqn:F.
    + destruct (Hfail eq_refl) as (_ & _ & Hr). congruence.
    + destruct (Hok eq_refl) as (Hs & lr & hp & -> & Hreg & Hm & Ha & Hr & _).
      rewrite Htrue in Hr. symmetry in Hr.
      apply andb_true_iff in Hr as [Hsucc Hprio].
      split; [discriminate|]. rewrite Hcalls.
      split; [|split; [|rewrite Hs; reflexivity]].
      * simpl. rewrite length_app.
        rewrite (all_registered lr Hreg Hm Ha Hsucc). reflexivity.
      * simpl. unfold succeeded at 1. simpl. rewrite F. simpl.
        rewrite forallb_app, Hsucc. simpl.
        unfold succeeded. simpl. rewrite Hprio. reflexivity.
  - destruct (initialize_prologue_none blockInfo w Hp) as (Hr & _). congruence.
Qed.

Lemma initialize_success_is_complete_witness :
  length (new_calls fresh_world (snd (initialize engine fresh_world))) = 18%nat /\
  forallb succeeded (new_calls fresh_world (snd (initialize engine fresh_world))) =
    true.
Proof.
  destruct (initialize_success_is_complete engine fresh_world ltac:(reflexivity))
    as (_ & H1 & H2 & _).
  split; assumption.
Defined.

(** ** [terminate] *)

(** X18. [terminate] returns true and clears the handle whatever the
    simulator answers to the [Close] and whether or not a connection was
    open; it sends exactly one [Close], leaves the accumulator and the
    pending records alone, and a second [terminate] leaves the block as
    the first did. *)
Theorem terminate_always_releases (w : World) :
  let w' := snd (terminate w) in
  fst (terminate w) = true /\
  simConnectHandle (self w') = None /\
  new_calls w w' = [(Close, respond (fs w) (calls (fs w)) Close)] /\
  data (self w') = data (self w) /\
  pending (fs w') = pending (fs w) /\
  self (snd (terminate w')) = self w'.
Proof.
  intros w'. subst w'.
  unfold terminate, bind, SimConnect_Close, SimConnect_call, modify_self, ret.
  cbn [fst snd]. split; [reflexivity|]. split; [reflexivity|].
  split; [apply new_calls_append; reflexivity|].
  repeat split.
Qed.

(** ** [configureSizeAndPorts] and [parseParameters] *)

Lemma parseParameters_eq (blockInfo : BlockInformation) (w : World) :
  parseParameters blockInfo w =
  if forallb (addParameterMetadata blockInfo) parameterMetadata
  then match parsedParameters blockInfo with
       | Some p => (true, set_self (set_m_parameters p (self w)) w)
       | None => (false, w)
       end
  else (false, w).
Proof.
  unfold parseParameters, parameterMetadata.
  destruct (forallb _ _); [|reflexivity].
  destruct (parsedParameters blockInfo); reflexivity.
Qed.

Lemma configureSizeAndPorts_eq
  (configInfo : ConfigureInformation) (blockInfo : BlockInformation) (w : World) :
  configureSizeAndPorts configInfo blockInfo w =
  if Block_configureSizeAndPorts configInfo
  then (if fst (parseParameters blockInfo w)
        then setPortsInfo configInfo [] outputPortInfo
        else false,
        snd (parseParameters blockInfo w))
  else (false, w).
Proof.
  unfold configureSizeAndPorts, bind.
  destruct (Block_configureSizeAndPorts configInfo); [|reflexivity].
  cbn [negb]. destruct (parseParameters blockInfo w) as [[|] w1]; [|reflexivity].
  cbn [negb fst snd].
  destruct (setPortsInfo configInfo [] outputPortInfo); reflexivity.
Qed.

(** X19. [configureSizeAndPorts] returns true exactly when the base class
    configures, the parameters parse, and the engine accepts the
    declaration of no input port and of seven output ports, numbered 0 to
    6, each one scalar double.  It sends nothing to the simulator and
    leaves the accumulator and the handle alone. *)
Theorem configureSizeAndPorts_declares_seven_outputs
  (configInfo : ConfigureInformation) (blockInfo : BlockInformation) (w : World) :
  let w' := snd (configureSizeAndPorts configInfo blockInfo w) in
  (fst (configureSizeAndPorts configInfo blockInfo w) = true <->
   Block_configureSizeAndPorts configInfo = true /\
   fst (parseParameters blockInfo w) = true /\
   setPortsInfo configInfo []
     (map (fun k => {| port_index := k; port_dims := [1%nat];
                       port_dataType := DOUBLE |}) (seq 0 7)) = true) /\
  fs w' = fs w /\
  data (self w') = data (self w) /\
  simConnectHandle (self w') = simConnectHandle (self w).
Proof.
  intros w'. subst w'.
  change (map _ (seq 0 7)) with outputPortInfo.
  rewrite configureSizeAndPorts_eq, parseParameters_eq.
  destruct (Block_configureSizeAndPorts configInfo);
    [|cbn [fst snd]; intuition congruence].
  destruct (forallb _ _);
    [|cbn [fst snd]; intuition congruence].
  destruct (parsedParameters blockInfo) as [p|];
    [|cbn [fst snd]; intuition congruence].
  destruct (setPortsInfo configInfo [] outputPortInfo);
    cbn [fst snd]; simpl; intuition congruence.
Qed.

(** X20. The two parameters [parseParameters] describes to the engine
    carry indices below [numberOfParameters]: an engine that accepts every
    description with such an index, and that parses the parameters, makes
    [parseParameters] succeed and store the parsed parameters. *)
Theorem parseParameters_indices_within_count
  (blockInfo : BlockInformation) (w : World) (p : gmap string ParameterValue) :
  (forall md : ParameterMetadata,
     (md_index md < numberOfParameters)%nat ->
     addParameterMetadata blockInfo md = true) ->
  parsedParameters blockInfo = Some p ->
  parseParameters blockInfo w = (true, set_self (set_m_parameters p (self w)) w).
Proof.
  intros Hacc Hp. rewrite parseParameters_eq, Hp.
  unfold parameterMetadata. simpl.
  rewrite !Hacc by (unfold numberOfParameters, Block_numberOfParameters; simpl; lia).
  reflexivity.
Qed.

Lemma parseParameters_indices_within_count_witness :
  fst (parseParameters
         {| Block_initialize := true;
            addParameterMetadata := fun md => bool_decide (md_index md < 2)%nat;
            parsedParameters := Some ∅;
            outputPortSignals := ∅ |} fresh_world) = true.
Proof.
  rewrite (parseParameters_indices_within_count _ fresh_world ∅).
  - reflexivity.
  - intros md Hmd. simpl. apply bool_decide_eq_true. exact Hmd.
  - reflexivity.
Defined.



